(** * pymatgen.io.core: InputFile, InputSet and InputGenerator

    A shallow embedding of [src/pymatgen/io/core.py] and the properties of
    its three classes.

    - Python objects live in a store ([heap]); a value is an atom or a
      reference into the store, so that aliasing ([self.inputs = inputs])
      and identity ([id(self)], the memo of [copy.deepcopy]) are visible.
    - A [dict] is an association list in insertion order with unique keys.
    - Exceptions are values of [exn]; a method is a function from the store
      to a [result] and the store it leaves behind.
    - The file system touched by [write_input] is a finite map from paths to
      nodes. *)

From stdpp Require Import base option list strings gmap fin_maps fin_sets.
From Stdlib Require Import Ascii ZArith Lia.

Local Open Scope string_scope.
Local Open Scope list_scope.
Local Open Scope nat_scope.
Local Open Scope stdpp_scope.

(** ** Exceptions and results *)

Inductive exn :=
  | KeyError (key : string)
  | TypeError
  | RecursionError
  | AttributeError (msg : string)
  | NotImplementedError (msg : string)
  | FileExistsError (fname : string)
  | FileNotFoundError
  | NotADirectoryError
  | IsADirectoryError.

Inductive result (A : Type) :=
  | Ok (a : A)
  | Raise (e : exn).
Arguments Ok {A} a.
Arguments Raise {A} e.

(** A computation over a state [S]: it returns a value or raises, and in
    both cases leaves a state behind (what was done before an exception
    stays done). *)
Definition M (S A : Type) : Type := S → result A * S.

Definition ret {S A} (a : A) : M S A := λ s, (Ok a, s).
Definition raise {S A} (e : exn) : M S A := λ s, (Raise e, s).
Definition bind {S A B} (c : M S A) (k : A → M S B) : M S B :=
  λ s, match c s with
       | (Ok a, s') => k a s'
       | (Raise e, s') => (Raise e, s')
       end.

Notation "'do' x <- c ; k" := (bind c (λ x, k))
  (at level 10, x name, c at level 100, k at level 200).
Notation "c ;; k" := (bind c (λ _, k))
  (at level 100, k at level 200, right associativity).

(** [for x in xs: body x], stopping at the first exception. *)
Fixpoint for_each {S A} (xs : list A) (body : A → M S unit) : M S unit :=
  match xs with
  | [] => ret ()
  | x :: xs' => body x ;; for_each xs' body
  end.

(** ** Python dicts: insertion-ordered, keys unique *)

Module PyDict.
Section dict.
Context {V : Type}.

Definition t := list (string * V).

Definition keys (d : t) : list string := d.*1.

(** Class invariant of every Python dict. *)
Definition wf (d : t) : Prop := NoDup (keys d).

Fixpoint get (k : string) (d : t) : option V :=
  match d with
  | [] => None
  | (k', v) :: d' => if decide (k = k') then Some v else get k d'
  end.

Definition contains (k : string) (d : t) : bool := bool_decide (is_Some (get k d)).

(** [d[k] = v]: an existing key keeps its position, a new key goes last. *)
Fixpoint set (k : string) (v : V) (d : t) : t :=
  match d with
  | [] => [(k, v)]
  | (k', v') :: d' =>
      if decide (k = k') then (k', v) :: d' else (k', v') :: set k v d'
  end.

(** [del d[k]]; [None] stands for [KeyError]. *)
Fixpoint del (k : string) (d : t) : option t :=
  match d with
  | [] => None
  | (k', v') :: d' =>
      if decide (k = k') then Some d' else cons (k', v') <$> del k d'
  end.

(** [d.update(other)]. *)
Definition update (d other : t) : t :=
  foldl (λ acc kv, set kv.1 kv.2 acc) d other.

(** The dict display [{**a, **b}]: a new dict filled from [a], then [b]. *)
Definition merge (a b : t) : t := update (update [] a) b.

Definition len (d : t) : nat := length d.
End dict.
Arguments t : clear implicits.
End PyDict.

(** ** Values, classes, objects, the store *)

Abbreviation loc := nat.

Inductive val :=
  | VNone
  | VNotImplemented
  | VBool (b : bool)
  | VInt (n : Z)
  | VStr (s : string)
  | VRef (l : loc).

(** A class is known by its name and the names of its proper ancestors. *)
Record cls := Cls { cname : string; cbases : list string }.

(** [issubclass(c, name)]. *)
Definition derives (c : cls) (name : string) : bool :=
  bool_decide (name ∈ cname c :: cbases c).

Inductive kind :=
  | KDict
  | KInst (c : cls).

(** A mutable object: a builtin dict with its items, or an instance with
    its [__dict__]. *)
Record obj := Obj { okind : kind; oitems : PyDict.t val }.

Abbreviation heap := (list obj).

Definition alloc (o : obj) : M heap loc := λ h, (Ok (length h), h ++ [o]).

Definition items_of (h : heap) (l : loc) : option (PyDict.t val) := oitems <$> h !! l.

Definition set_item (l : loc) (k : string) (v : val) : M heap unit := λ h,
  match h !! l with
  | Some o => (Ok (), <[l := Obj (okind o) (PyDict.set k v (oitems o))]> h)
  | None => (Raise TypeError, h)
  end.

(** [type(x)] for an instance. *)
Definition type_of (h : heap) (l : loc) : option cls :=
  match h !! l with
  | Some (Obj (KInst c) _) => Some c
  | _ => None
  end.

(** The items of the builtin dict a value refers to, if it is one. *)
Definition as_dict (h : heap) (v : val) : option (PyDict.t val) :=
  match v with
  | VRef l => match h !! l with
              | Some (Obj KDict d) => Some d
              | _ => None
              end
  | _ => None
  end.

(** [isinstance(v, c)] for a class [c] of the model. *)
Definition isinstance (h : heap) (v : val) (name : string) : bool :=
  match v with
  | VRef l => match type_of h l with
              | Some c => derives c name
              | None => false
              end
  | _ => false
  end.

(** ** Attribute and item access

    The containers of the model are the builtin dicts: the operations
    below ([container[key]], [key in container], [**mapping], [len],
    iteration) are those of a dict, and raise [TypeError] on every other
    value.  The facts are on collections whose mapping and keyword
    arguments are dicts ([InputSet_mapping], [InputSet_at]), as [__init__]
    leaves them when it is given a dict or nothing. *)

Definition lift {S A} (r : result A) : M S A := λ s, (r, s).
Definition read {S A} (f : S → result A) : M S A := λ s, (f s, s).

(** The [__dict__] of an instance. *)
Definition instance_dict (h : heap) (l : loc) : option (PyDict.t val) :=
  match h !! l with
  | Some (Obj (KInst _) d) => Some d
  | _ => None
  end.

(** [container[key]] for a builtin dict; [dict] is the only container of
    the model, anything else is not subscriptable. *)
Definition subscript (h : heap) (container : val) (key : string) : result val :=
  match as_dict h container with
  | Some d => match PyDict.get key d with
              | Some v => Ok v
              | None => Raise (KeyError key)
              end
  | None => Raise TypeError
  end.

(** [key in container]. *)
Definition py_in (h : heap) (key : string) (container : val) : result bool :=
  match as_dict h container with
  | Some d => Ok (PyDict.contains key d)
  | None => Raise TypeError
  end.

(** The items a mapping unpacks to under the double-star operator. *)
Definition unpack (h : heap) (mapping : val) : result (PyDict.t val) :=
  match as_dict h mapping with
  | Some d => Ok d
  | None => Raise TypeError
  end.

(** Truth value, as in [inputs or {}]: that of [None], of the atoms and
    of a builtin dict.  An instance is taken as true, which is the truth
    value of an instance of a class with neither [__bool__] nor [__len__];
    an InputSet given as [inputs] would answer through its [__len__], and
    the facts on the constructor are on [None] and on dicts. *)
Definition truthy (h : heap) (v : val) : bool :=
  match v with
  | VNone => false
  | VNotImplemented => true
  | VBool b => b
  | VInt n => negb (n =? 0)%Z
  | VStr s => negb (bool_decide (s = ""))
  | VRef l => match h !! l with
              | Some (Obj KDict d) => negb (bool_decide (d = []))
              | _ => true
              end
  end.

(** ** class InputSet(MSONable, MutableMapping) *)

Definition try_KeyError {A} (r : result A) (default : A) : result A :=
  match r with
  | Raise (KeyError _) => Ok default
  | _ => r
  end.

(** [repr(s)] of a string, the [{key!r}] of a format string; a string of
    the model is a sequence of characters with codes below 256.  The quote
    is the single one, unless the string has single quotes and no double
    one; the quote and the backslash are escaped, as are tab, line feed,
    carriage return and the characters that are not printable. *)
Definition hex_digit (n : nat) : string := String.substring n 1 "0123456789abcdef".

Definition repr_char (quote ch : ascii) : string :=
  let n := nat_of_ascii ch in
  if bool_decide (ch = quote ∨ n = 92) then String (ascii_of_nat 92) (String ch "")
  else if bool_decide (n = 9) then String (ascii_of_nat 92) "t"
  else if bool_decide (n = 10) then String (ascii_of_nat 92) "n"
  else if bool_decide (n = 13) then String (ascii_of_nat 92) "r"
  else if bool_decide (n < 32 ∨ 127 ≤ n ≤ 160 ∨ n = 173)
       then String (ascii_of_nat 92) ("x" +:+ hex_digit (n / 16) +:+ hex_digit (n mod 16))
  else String ch "".

Definition py_repr (s : string) : string :=
  let cs := String.list_ascii_of_string s in
  let single := "'"%char in
  let double := ascii_of_nat 34 in
  let quote := if bool_decide (single ∈ cs ∧ double ∉ cs) then double else single in
  String quote (foldr (λ ch acc, repr_char quote ch +:+ acc) (String quote "") cs).

(** [f"'{type(self).__name__}' object has no attribute {key!r}"]. *)
Definition qualname_msg (c : cls) (key : string) : string :=
  "'" +:+ cname c +:+ "' object has no attribute " +:+ py_repr key.

(** The names that the type of an instance answers before the [__dict__]
    of the instance is looked at, and that [setattr] hands to the type: the
    data descriptors [__class__], [__dict__] and [__weakref__], which
    every class of the model has from [object] and from its layout.  The
    classes of the model define no property of their own. *)
Definition data_descriptors : list string := ["__class__"; "__dict__"; "__weakref__"].

Section InputSet_access.
(** [getattr] is the attribute lookup of the interpreter, through which
    the methods below read [self.inputs] and [self._kwargs]. *)
Variable getattr : heap → loc → string → result val.

(** [InputSet.__getitem__]: [return self.inputs[key]]. *)
Definition InputSet___getitem__ (h : heap) (self : loc) (key : string) : result val :=
  match getattr h self "inputs" with
  | Ok inputs => subscript h inputs key
  | Raise e => Raise e
  end.

(** [Mapping.get], inherited: [self[key]], or [None] on [KeyError]. *)
Definition Mapping_get (h : heap) (self : loc) (key : string) : result val :=
  try_KeyError (InputSet___getitem__ h self key) VNone.

(** [self.get(key)]: the name [get] is looked up on the instance, where a
    keyword argument named [get] has left an entry of [__dict__] that comes
    before the method of the class, and what is found is called.  Without
    such an entry it is [Mapping.get], which InputSet inherits; with one,
    the call is a [TypeError], as no value of the model can be called. *)
Definition self_get (h : heap) (self : loc) (key : string) : result val :=
  match instance_dict h self with
  | Some dict =>
      match PyDict.get "get" dict with
      | Some _ => Raise TypeError
      | None => Mapping_get h self key
      end
  | None => Raise TypeError
  end.

(** [InputSet.__getattr__]:
    [if key in self._kwargs: return self.get(key)]
    [raise AttributeError(...)]. *)
Definition InputSet___getattr__ (h : heap) (self : loc) (key : string) : result val :=
  match getattr h self "_kwargs" with
  | Raise e => Raise e
  | Ok kwargs =>
      match py_in h key kwargs with
      | Raise e => Raise e
      | Ok true => self_get h self key
      | Ok false =>
          match type_of h self with
          | Some c => Raise (AttributeError (qualname_msg c key))
          | None => Raise TypeError
          end
      end
  end.
End InputSet_access.

(** [self.name], for a name that the type of the instance does not
    define: the [__dict__] of the instance first; when the name is not
    there, the [__getattr__] of an InputSet.  The names the type defines
    are outside this lookup: for a data descriptor ([data_descriptors]) the
    type answers whatever [__dict__] holds, and a method or another
    attribute of the class is found before [__getattr__] is tried.  The
    methods of the model read [inputs] and [_kwargs] through it; the facts
    on other names are on names in [__dict__] that are no data
    descriptors, and on [__getattr__] itself.  [depth] is the room left
    on the interpreter's stack: [__getattr__] reads [self._kwargs], which
    re-enters it when [_kwargs] is not in [__dict__]. *)
Fixpoint getattr_rec (depth : nat) (h : heap) (self : loc) (name : string) : result val :=
  match depth with
  | 0 => Raise RecursionError
  | S d =>
      match h !! self with
      | Some (Obj (KInst c) dict) =>
          match PyDict.get name dict with
          | Some v => Ok v
          | None =>
              if derives c "InputSet"
              then InputSet___getattr__ (getattr_rec d) h self name
              else Raise (AttributeError (qualname_msg c name))
          end
      | _ => Raise TypeError
      end
  end.

Definition recursionlimit : nat := 1000.

Definition getattr : heap → loc → string → result val := getattr_rec recursionlimit.

(** [setattr(obj, name, value)] on an instance, as [object.__setattr__]
    does it: a data descriptor of the type takes the value, and every
    other name is bound in the [__dict__] of the instance.  Of the data
    descriptors, [__class__] accepts a class only, and no value of the
    model is a class; [__weakref__] has no setter; [__dict__] accepts a
    dict only, which becomes the [__dict__] of the instance (the store
    keeps the items of an instance in the instance, so the model copies
    the items and does not follow the sharing that results). *)
Definition setattr (obj : loc) (name : string) (value : val) : M heap unit := λ h,
  if decide (name = "__class__") then (Raise TypeError, h)
  else if decide (name = "__weakref__") then
    (Raise (AttributeError "attribute '__weakref__' of 'MSONable' objects is not writable"), h)
  else if decide (name = "__dict__") then
    match as_dict h value, h !! obj with
    | Some d, Some o => (Ok (), <[obj := Obj (okind o) d]> h)
    | _, _ => (Raise TypeError, h)
    end
  else set_item obj name value h.

(** [InputSet.__init__(self, inputs=None, **kwargs)]:
    [self.inputs = inputs or {}]
    [self._kwargs = kwargs]
    [self.__dict__.update( **kwargs)]
    [kwargs] is the dict built for the call. *)
Definition InputSet___init__ (self : loc) (inputs : val) (kwargs : loc) : M heap unit :=
  do inputs' <- (λ h, if truthy h inputs then ret inputs h
                      else (do d <- alloc (Obj KDict []); ret (VRef d)) h);
  set_item self "inputs" inputs' ;;
  set_item self "_kwargs" (VRef kwargs) ;;
  do kw <- read (λ h, unpack h (VRef kwargs));
  for_each kw (λ kv, set_item self kv.1 kv.2).

(** The call [c(inputs, **kwargs)] for a class [c] that inherits
    [InputSet.__init__]: [__new__], then the binding of the arguments (a
    keyword that names a parameter already given is a [TypeError]), then
    [__init__]. *)
Definition InputSet_call (c : cls) (inputs : val) (kwargs : PyDict.t val) : M heap loc :=
  do self <- alloc (Obj (KInst c) []);
  if bool_decide ("self" ∈ PyDict.keys kwargs ∨ "inputs" ∈ PyDict.keys kwargs)
  then raise TypeError
  else
    do kw <- alloc (Obj KDict kwargs);
    InputSet___init__ self inputs kw ;;
    ret self.

(** [InputSet.__copy__(self)]:
    [cls = type(self)]
    [new_instance = cls.__new__(cls)]
    [for key, val in self.__dict__.items():]
    [    setattr(new_instance, key, val)]
    [return new_instance] *)
Definition InputSet___copy__ (self : loc) : M heap val :=
  do c <- read (λ h, match type_of h self with
                     | Some c => Ok c
                     | None => Raise TypeError
                     end);
  do new_instance <- alloc (Obj (KInst c) []);
  do dict <- read (λ h, match items_of h self with
                        | Some d => Ok d
                        | None => Raise TypeError
                        end);
  for_each dict (λ kv, setattr new_instance kv.1 kv.2) ;;
  ret (VRef new_instance).

(** [InputSet.__len__]: [return len(self.inputs)]. *)
Definition InputSet___len__ (h : heap) (self : loc) : result nat :=
  match getattr h self "inputs" with
  | Ok inputs => match unpack h inputs with
                 | Ok d => Ok (PyDict.len d)
                 | Raise e => Raise e
                 end
  | Raise e => Raise e
  end.

(** [container[key] = value] and [del container[key]] on a builtin dict. *)
Definition store_subscript (container : val) (key : string) (value : val) : M heap unit := λ h,
  match container with
  | VRef l => match h !! l with
              | Some (Obj KDict d) => (Ok (), <[l := Obj KDict (PyDict.set key value d)]> h)
              | _ => (Raise TypeError, h)
              end
  | _ => (Raise TypeError, h)
  end.

Definition del_subscript (container : val) (key : string) : M heap unit := λ h,
  match container with
  | VRef l => match h !! l with
              | Some (Obj KDict d) =>
                  match PyDict.del key d with
                  | Some d' => (Ok (), <[l := Obj KDict d']> h)
                  | None => (Raise (KeyError key), h)
                  end
              | _ => (Raise TypeError, h)
              end
  | _ => (Raise TypeError, h)
  end.

(** [InputSet.__iter__]: [return iter(self.inputs)], the keys in order. *)
Definition InputSet___iter__ (h : heap) (self : loc) : result (list string) :=
  match getattr h self "inputs" with
  | Ok inputs => match unpack h inputs with
                 | Ok d => Ok (PyDict.keys d)
                 | Raise e => Raise e
                 end
  | Raise e => Raise e
  end.

(** [InputSet.__setitem__]: [self.inputs[key] = value]. *)
Definition InputSet___setitem__ (self : loc) (key : string) (value : val) : M heap unit :=
  do inputs <- read (λ h, getattr h self "inputs");
  store_subscript inputs key value.

(** [InputSet.__delitem__]: [del self.inputs[key]]. *)
Definition InputSet___delitem__ (self : loc) (key : string) : M heap unit :=
  do inputs <- read (λ h, getattr h self "inputs");
  del_subscript inputs key.

(** [isinstance(other, dict)]. *)
Definition is_dict (h : heap) (v : val) : bool :=
  match as_dict h v with Some _ => true | None => false end.

Section InputSet_union.
(** [construct c inputs kwargs] is the call [c(inputs, **kwargs)] of the
    class [c], which [__or__] makes as [type(self)(...)]: it is
    [InputSet_call c] for a class that inherits [InputSet.__init__], and
    whatever its own [__init__] does for a class that defines one, as the
    docstring of InputSet allows. *)
Variable construct : cls → val → PyDict.t val → M heap loc.

(** [InputSet.__or__]:
    [if isinstance(other, dict): other = type(self)(other)]
    [if not isinstance(other, type(self)): return NotImplemented]
    [return type(self)({ **self.inputs, **other.inputs}, **self._kwargs)] *)
Definition InputSet___or__ (self : loc) (other : val) : M heap val :=
  do c <- read (λ h, match type_of h self with
                     | Some c => Ok c
                     | None => Raise TypeError
                     end);
  do other <- (λ h, if is_dict h other
                    then (do o <- construct c other []; ret (VRef o)) h
                    else ret other h);
  do same <- read (λ h, Ok (isinstance h other (cname c)));
  if negb same then ret VNotImplemented
  else
    do a <- read (λ h, match getattr h self "inputs" with
                       | Ok i => unpack h i
                       | Raise e => Raise e
                       end);
    do b <- read (λ h, match other with
                       | VRef o => match getattr h o "inputs" with
                                   | Ok i => unpack h i
                                   | Raise e => Raise e
                                   end
                       | _ => Raise TypeError
                       end);
    do merged <- alloc (Obj KDict (PyDict.merge a b));
    do kw <- read (λ h, match getattr h self "_kwargs" with
                        | Ok k => unpack h k
                        | Raise e => Raise e
                        end);
    do r <- construct c (VRef merged) kw;
    ret (VRef r).
End InputSet_union.

(** The class [c] is constructed as InputSet is: it inherits [__init__],
    so that the call of the class is [InputSet_call]. *)
Definition inherits_init (construct : cls → val → PyDict.t val → M heap loc)
    (c : cls) : Prop :=
  ∀ inputs kwargs h, construct c inputs kwargs h = InputSet_call c inputs kwargs h.

(** [InputSet.from_directory], a classmethod:
    [raise NotImplementedError(f"from_directory has not been implemented in {cls.__name__}")] *)
Definition InputSet_from_directory {A} (c : cls) (directory : list string) : result A :=
  Raise (NotImplementedError ("from_directory has not been implemented in " +:+ cname c)).

(** [InputSet.validate]:
    [raise NotImplementedError(f".validate() has not been implemented in {type(self).__name__}")] *)
Definition InputSet_validate (h : heap) (self : loc) : result bool :=
  match type_of h self with
  | Some c => Raise (NotImplementedError (".validate() has not been implemented in " +:+ cname c))
  | None => Raise TypeError
  end.

(** ** class InputFile(MSONable) *)

(** [InputFile.from_str], a classmethod:
    [raise NotImplementedError(f"from_str has not been implemented in {cls.__name__}")] *)
Definition InputFile_from_str {A} (c : cls) (contents : string) : result A :=
  Raise (NotImplementedError ("from_str has not been implemented in " +:+ cname c)).

(** ** class InputGenerator(MSONable) *)

(** [InputGenerator.get_input_set(self, *args, **kwargs)]:
    [raise NotImplementedError(f"get_input_set has not been implemented in {type(self).__name__}")] *)
Definition InputGenerator_get_input_set (h : heap) (self : loc)
    (args : list val) (kwargs : PyDict.t val) : result val :=
  match type_of h self with
  | Some c => Raise (NotImplementedError ("get_input_set has not been implemented in " +:+ cname c))
  | None => Raise TypeError
  end.

(** ** copy.deepcopy and InputSet.__deepcopy__

    [copy.deepcopy(x, memo)] of the standard library (CPython up to 3.13),
    for the objects of the model: an object found in the memo under its
    identity is answered by the copy recorded there, an atom goes through
    [_deepcopy_atomic] and is returned as it is, a dict goes through
    [_deepcopy_dict], an InputSet through its own [__deepcopy__], any other
    instance through [_reconstruct].  The state is the store and the memo.

    Every call of a Python function takes one frame of the interpreter's
    stack: [deepcopy] itself, then the copier it calls, which calls
    [deepcopy] again for what the object holds.  The frames are what the
    recursion limit counts (CPython 3.12 and 3.13; 3.11 counts one more
    level, once, when [_keep_alive] meets its first [KeyError], which is
    within the room that the fact on the deep copy asks for). *)

Abbreviation memo := (gmap loc loc).
Definition cstate : Type := heap * memo.

Definition on_heap {A} (c : M heap A) : M cstate A := λ s,
  let '(r, h') := c s.1 in (r, (h', s.2)).

(** [memo[id(x)] = y]. *)
Definition memo_set (x y : loc) : M cstate unit := λ s,
  (Ok (), (s.1, <[x := y]> s.2)).

(** The items of an object, as [x.items()] or [x.__dict__.items()] yield
    them. *)
Definition items (l : loc) : M cstate (PyDict.t val) :=
  read (λ s, match items_of s.1 l with
             | Some d => Ok d
             | None => Raise TypeError
             end).

Section deepcopy_methods.
Variable deepcopy : val → M cstate val.

(** [InputSet.__deepcopy__(self, memo)]:
    [cls = type(self)]
    [new_instance = cls.__new__(cls)]
    [memo[id(self)] = new_instance]
    [for key, val in self.__dict__.items():]
    [    setattr(new_instance, key, copy.deepcopy(val, memo))]
    [return new_instance] *)
Definition InputSet___deepcopy__ (self : loc) : M cstate val :=
  do c <- read (λ s, match type_of s.1 self with
                     | Some c => Ok c
                     | None => Raise TypeError
                     end);
  do new_instance <- on_heap (alloc (Obj (KInst c) []));
  memo_set self new_instance ;;
  do dict <- items self;
  for_each dict (λ kv,
    do v <- deepcopy kv.2;
    on_heap (setattr new_instance kv.1 v)) ;;
  ret (VRef new_instance).

(** [copy._deepcopy_dict(x, memo)]:
    [y = {}]
    [memo[id(x)] = y]
    [for key, value in x.items():]
    [    y[deepcopy(key, memo)] = deepcopy(value, memo)]
    [return y]
    The value is copied first, then the key; a key is a string, which
    [deepcopy] returns as it is when it has the room to run. *)
Definition deepcopy_dict (x : loc) : M cstate val :=
  do y <- on_heap (alloc (Obj KDict []));
  memo_set x y ;;
  do d <- items x;
  for_each d (λ kv,
    do v <- deepcopy kv.2;
    deepcopy (VStr kv.1) ;;
    on_heap (set_item y kv.1 v)) ;;
  ret (VRef y).

(** [copy._reconstruct(x, memo, ...)] for an instance without a
    [__deepcopy__] of its own: a new object of the class, recorded in the
    memo, whose [__dict__] is updated with the deep copy of the state
    [x.__dict__], a dict that [_deepcopy_dict] copies. *)
Definition reconstruct (c : cls) (x : loc) : M cstate val :=
  do y <- on_heap (alloc (Obj (KInst c) []));
  memo_set x y ;;
  do state <- items x;
  for_each state (λ kv,
    do v <- deepcopy kv.2;
    deepcopy (VStr kv.1) ;;
    on_heap (set_item y kv.1 v)) ;;
  ret (VRef y).
End deepcopy_methods.

(** [copy.deepcopy(x, memo)]; [depth] is the number of frames left on the
    interpreter's stack, and a call without a frame for it is a
    [RecursionError].  [deepcopy] takes one frame.  [_deepcopy_atomic],
    [_deepcopy_dict] and [__deepcopy__] take the next one, so that they
    call [deepcopy] two frames further down.  For another instance,
    [_reconstruct] takes the second frame; it copies the class, the
    argument of the constructor, in a generator (third frame) by
    [deepcopy] (fourth) and [_deepcopy_atomic] (fifth), and then the state
    by [deepcopy] (third) and [_deepcopy_dict] (fourth), which calls
    [deepcopy] four frames further down. *)
Fixpoint deepcopy (depth : nat) (x : val) : M cstate val :=
  match depth with
  | 0 => raise RecursionError
  | S d =>
      match x with
      | VRef l => λ s,
          match s.2 !! l with
          | Some y => (Ok (VRef y), s)
          | None =>
              match s.1 !! l with
              | Some (Obj KDict _) =>
                  match d with
                  | S d1 => deepcopy_dict (deepcopy d1) l s
                  | 0 => (Raise RecursionError, s)
                  end
              | Some (Obj (KInst c) _) =>
                  if derives c "InputSet"
                  then match d with
                       | S d1 => InputSet___deepcopy__ (deepcopy d1) l s
                       | 0 => (Raise RecursionError, s)
                       end
                  else match d with
                       | S (S (S d3)) =>
                           match d3 with
                           | S _ => reconstruct (deepcopy d3) c l s
                           | 0 => (Raise RecursionError, s)
                           end
                       | _ => (Raise RecursionError, s)
                       end
              | None => (Raise TypeError, s)
              end
          end
      | _ => match d with
             | S _ => ret x
             | 0 => raise RecursionError
             end
      end
  end.

(** [copy.deepcopy(x)]: the call starts with an empty memo. *)
Definition copy_deepcopy (depth : nat) (x : val) (h : heap) : result val * heap :=
  let '(r, s) := deepcopy depth x (h, ∅) in (r, s.1).

(** ** The file system

    A path is the list of its components from the root, which is also
    the directory that relative paths start from; it is a resolved path,
    whose components are names ([.] and [..] are none).  [div] appends
    one component, and [joinpath] is [path / fname] for whatever string
    the file name is.  A node is a directory, a text file written through
    [zopen] (the text and the compression it is stored under) or a zip
    archive with its members. *)

Abbreviation path := (list string).

Inductive codec := Plain | Gzip | Bzip2 | Lzma.

#[warnings="-register-all"] Inductive node :=
  | Dir
  | Text (c : codec) (s : string)
  | Zip (members : list (path * node)).

Abbreviation FS := (gmap path node).

Definition div (p : path) (fname : string) : path := p ++ [fname].
Declare Scope path_scope.
Delimit Scope path_scope with path.
Infix "/" := div : path_scope.

(** [path / fname] as [pathlib] joins a path and a string: the string is
    cut at its slashes, the empty components and the dots are dropped
    ([a//b], [a/./b] and [a/b/] are [a/b]; [..] stays a component, which
    the file system of the model does not resolve), and the path continues
    with what is left, unless the string is absolute and takes the place
    of the path. *)
Fixpoint split_slash (s cur : string) : list string :=
  match s with
  | EmptyString => [cur]
  | String c s' =>
      if Ascii.eqb c "/"%char then cur :: split_slash s' ""
      else split_slash s' (cur +:+ String c "")
  end.

Definition parts (fname : string) : list string :=
  filter (λ c, c ≠ "" ∧ c ≠ ".") (split_slash fname "").

Definition is_absolute (fname : string) : bool := String.prefix "/" fname.

Definition joinpath (p : path) (fname : string) : path :=
  if is_absolute fname then parts fname else p ++ parts fname.

(** A file name in the strict sense: one component, not empty, with no
    slash in it, and neither [.] nor [..]; for such a name [path / fname]
    is [div path fname]. *)
Definition single_component (fname : string) : Prop :=
  is_absolute fname = false ∧ parts fname = [fname] ∧ fname ≠ "..".

Definition parent (p : path) : path := removelast p.
Definition name (p : path) : string := default "" (last p).

(** [os.stat]: the root is a directory. *)
Definition stat (fs : FS) (p : path) : option node :=
  match p with
  | [] => Some Dir
  | _ => fs !! p
  end.

(** [Path.exists]. *)
Definition Path_exists (fs : FS) (p : path) : bool := bool_decide (is_Some (stat fs p)).

(** Every node but the root sits in a directory. *)
Definition fs_wf (fs : FS) : Prop :=
  ∀ p n, fs !! p = Some n → stat fs (parent p) = Some Dir.

(** A file stands in the place of one of the directories [rest] below
    [done]. *)
Fixpoint file_above (fs : FS) (done : path) (rest : list string) : bool :=
  match rest with
  | [] => false
  | c :: rest' =>
      match stat fs (done / c)%path with
      | Some (Text _ _) | Some (Zip _) => true
      | _ => file_above fs (done / c)%path rest'
      end
  end.

(** What creating or opening an entry at [p] asks of the directories
    above: the directory of [p] must exist.  When it does not, the error
    is [FileNotFoundError], unless a file stands in the place of a
    directory on the way, where the walk stops with
    [NotADirectoryError]. *)
Definition check_parent (fs : FS) (p : path) : result unit :=
  match stat fs (parent p) with
  | Some Dir => Ok ()
  | Some _ => Raise NotADirectoryError
  | None => if file_above fs [] (parent p) then Raise NotADirectoryError
            else Raise FileNotFoundError
  end.

(** [Path.mkdir(parents=True, exist_ok=True)]: walks down from [done],
    creating the directories that are missing. *)
Fixpoint makedirs (done : path) (rest : list string) : M FS unit := λ fs,
  match rest with
  | [] => (Ok (), fs)
  | c :: rest' =>
      let p := (done / c)%path in
      match stat fs p with
      | Some Dir => makedirs p rest' fs
      | Some _ => (Raise (match rest' with
                          | [] => FileExistsError c
                          | _ => NotADirectoryError
                          end), fs)
      | None => makedirs p rest' (<[p := Dir]> fs)
      end
  end.

Definition Path_mkdir (p : path) : M FS unit := makedirs [] p.

(** [Path.touch()]: creates an empty file unless the path exists. *)
Definition Path_touch (p : path) : M FS unit := λ fs,
  match stat fs p with
  | Some _ => (Ok (), fs)
  | None => match check_parent fs p with
            | Ok _ => (Ok (), <[p := Text Plain ""]> fs)
            | Raise e => (Raise e, fs)
            end
  end.

(** [os.remove]. *)
Definition os_remove (p : path) : M FS unit := λ fs,
  match stat fs p with
  | None => (Raise FileNotFoundError, fs)
  | Some Dir => (Raise IsADirectoryError, fs)
  | Some _ => (Ok (), delete p fs)
  end.

(** ** Writing: InputFile.write_file and InputSet.write_input *)

(** The zip archive being written: the file system and the members added
    so far. *)
Definition zstate : Type := FS * list (path * node).

(** [ZipFile(filename, mode="w")]: the archive file is created or
    truncated. *)
Definition ZipFile_open (filename : path) : M FS unit := λ fs,
  match stat fs filename with
  | Some Dir => (Raise IsADirectoryError, fs)
  | _ => match check_parent fs filename with
         | Ok _ => (Ok (), <[filename := Zip []]> fs)
         | Raise e => (Raise e, fs)
         end
  end.

(** [zip_file.write(file_path)]: the node at [file_path] becomes a member. *)
Definition ZipFile_write (file_path : path) : M zstate unit := λ s,
  match stat s.1 file_path with
  | None => (Raise FileNotFoundError, s)
  | Some n => (Ok (), (s.1, s.2 ++ [(file_path, n)]))
  end.

(** Closing the archive writes its members to the archive file; when the
    file has been unlinked meanwhile, what is written is lost with it. *)
Definition ZipFile_close (filename : path) (s : zstate) : FS :=
  match stat s.1 filename with
  | Some (Text _ _) | Some (Zip _) => <[filename := Zip s.2]> s.1
  | _ => s.1
  end.

Definition on_fs {A} (c : M FS A) : M zstate A := λ s,
  let '(r, fs') := c s.1 in (r, (fs', s.2)).

(** [with ZipFile(filename, mode="w") as zip_file: body]: the archive is
    closed however the body ends. *)
Definition with_ZipFile (filename : path) (body : M zstate unit) : M FS unit := λ fs,
  match ZipFile_open filename fs with
  | (Raise e, fs') => (Raise e, fs')
  | (Ok _, fs1) => let '(r, s) := body (fs1, []) in (r, ZipFile_close filename s)
  end.

(** [try: c except FileNotFoundError: pass]. *)
Definition except_FileNotFoundError {S} (c : M S unit) : M S unit := λ s,
  match c s with
  | (Raise FileNotFoundError, s') => (Ok (), s')
  | r => r
  end.

(** The file system once the files named [fnames] are removed from [d]. *)
Definition unlink_all (d : path) (fnames : list string) (fs : FS) : FS :=
  foldl (λ fs k, delete (d / k)%path fs) fs fnames.

Section Writing.
(** The compression [monty.io.zopen] selects for a file name, from its
    extension. *)
Variable zopen_codec : string → codec.
(** [get_str], abstract in [InputFile]: the text the concrete class of the
    instance renders. *)
Variable get_str : heap → loc → string.
(** [str(v)] of the interpreter for a value that is neither a [str] nor
    an [InputFile]. *)
Variable builtin_str : heap → val → string.

(** [with zopen(p, mode="wt", encoding="utf-8") as file: file.write(text)]. *)
Definition zopen_write (p : path) (text : string) : M FS unit := λ fs,
  match stat fs p with
  | Some Dir => (Raise IsADirectoryError, fs)
  | _ => match check_parent fs p with
         | Ok _ => (Ok (), <[p := Text (zopen_codec (name p)) text]> fs)
         | Raise e => (Raise e, fs)
         end
  end.

(** [InputFile.__str__]: [return self.get_str()]. *)
Definition InputFile___str__ (h : heap) (self : loc) : string := get_str h self.

(** [str(v)]: a [str] is itself, an [InputFile] answers with its
    [__str__]. *)
Definition py_str (h : heap) (v : val) : string :=
  match v with
  | VStr s => s
  | VRef l => if isinstance h v "InputFile" then InputFile___str__ h l
              else builtin_str h v
  | _ => builtin_str h v
  end.

(** The file the first loop of [write_input] leaves for an item whose
    file name is one component: the string form of the content, at
    [d / fname]. *)
Definition written (h : heap) (d : path) (kv : string * val) : path * node :=
  ((d / kv.1)%path, Text (zopen_codec kv.1) (py_str h kv.2)).

(** The file system once the first loop has written the items [inputs]. *)
Definition write_all (h : heap) (d : path) (inputs : PyDict.t val) (fs : FS) : FS :=
  foldl (λ fs kv, <[(written h d kv).1 := (written h d kv).2]> fs) fs inputs.

(** [InputFile.write_file(self, filename)]:
    [with zopen(Path(filename), mode="wt", encoding="utf-8") as file:]
    [    file.write(self.get_str())] *)
Definition InputFile_write_file (h : heap) (self : loc) (filename : path) : M FS unit :=
  zopen_write filename (get_str h self).

(** [self.inputs], as the two loops of [write_input] read it. *)
Definition self_inputs (h : heap) (self : loc) : result (PyDict.t val) :=
  match getattr h self "inputs" with
  | Ok i => unpack h i
  | Raise e => Raise e
  end.

(** The body of the first loop of [write_input], for one item. *)
Definition write_one (h : heap) (path : path) (make_dir overwrite : bool)
    (fname : string) (contents : val) : M FS unit :=
  let file_path := joinpath path fname in
  (do there <- read (λ fs, Ok (Path_exists fs path));
   if negb there && make_dir then Path_mkdir path else ret ()) ;;
  do taken <- read (λ fs, Ok (Path_exists fs file_path));
  if taken && negb overwrite then raise (FileExistsError fname)
  else
    Path_touch file_path ;;
    match contents with
    | VRef l => if isinstance h contents "InputFile"
                then InputFile_write_file h l file_path
                else zopen_write file_path (py_str h contents)
    | _ => zopen_write file_path (py_str h contents)
    end.

(** The body of the second loop, for one file name:
    [try: zip_file.write(file_path); os.remove(file_path)]
    [except FileNotFoundError: pass] *)
Definition zip_one (path : path) (fname : string) : M zstate unit :=
  let file_path := joinpath path fname in
  except_FileNotFoundError
    (ZipFile_write file_path ;; on_fs (os_remove file_path)).

(** [InputSet.write_input(self, directory, make_dir=True, overwrite=True,
    zip_inputs=False)]. *)
Definition InputSet_write_input (h : heap) (self : loc) (directory : path)
    (make_dir overwrite zip_inputs : bool) : M FS unit :=
  let path := directory in
  do inputs <- lift (self_inputs h self);
  for_each inputs (λ kv, write_one h path make_dir overwrite kv.1 kv.2) ;;
  if zip_inputs then
    do c <- lift (match type_of h self with
                  | Some c => Ok c
                  | None => Raise TypeError
                  end);
    let filename := joinpath path (cname c +:+ ".zip") in
    do inputs <- lift (self_inputs h self);
    with_ZipFile filename (for_each (PyDict.keys inputs) (zip_one path))
  else ret ().
End Writing.

(** ** Reading: InputFile.from_file *)

(** A text with no carriage return in it.  Reading in mode [rt] turns
    every [CR LF] and every lone [CR] of the file into a line feed, so only
    such a text can come back as it was written. *)
Definition no_CR (s : string) : Prop := "013"%char ∉ String.list_ascii_of_string s.

Section Reading.
(** The text [monty.io.zopen] reads, in mode [rt], from a file of the given
    name that holds the given node; the decompression goes by the
    extension of the name. *)
Variable zopen_text : string → node → result string.

(** [with zopen(p, mode="rt", encoding="utf-8") as file: file.read()]. *)
Definition zopen_read (p : path) : M FS string := λ fs,
  match stat fs p with
  | Some Dir => (Raise IsADirectoryError, fs)
  | Some n => (zopen_text (name p) n, fs)
  | None => match check_parent fs p with
            | Ok _ => (Raise FileNotFoundError, fs)
            | Raise e => (Raise e, fs)
            end
  end.

(** [InputFile.from_file(cls, path)], a classmethod:
    [with zopen(Path(path), mode="rt", encoding="utf-8") as file:]
    [    return cls.from_str(file.read())]
    [from_str] is [cls.from_str], that of the class the method is called
    on. *)
Definition InputFile_from_file {A} (from_str : string → result A) (path : path) : M FS A :=
  do contents <- zopen_read path;
  lift (from_str contents).
End Reading.

(** ** What it is to be an InputSet in the store *)

(** The instance at [self] is of class [c], which derives from InputSet,
    and its attribute [inputs] is the dict at [li] with the items
    [inputs]: what every InputSet is once [__init__] has run. *)
Definition InputSet_mapping (h : heap) (self : loc) (c : cls)
    (li : loc) (inputs : PyDict.t val) : Prop :=
  ∃ dict,
    h !! self = Some (Obj (KInst c) dict) ∧
    derives c "InputSet" = true ∧
    PyDict.get "inputs" dict = Some (VRef li) ∧
    h !! li = Some (Obj KDict inputs) ∧
    PyDict.wf inputs.

(** Moreover its attribute [_kwargs] is the dict at [lk] with the items
    [kwargs]: the keyword arguments it was made with are kept. *)
Definition InputSet_at (h : heap) (self : loc) (c : cls)
    (li : loc) (inputs : PyDict.t val) (lk : loc) (kwargs : PyDict.t val) : Prop :=
  ∃ dict,
    h !! self = Some (Obj (KInst c) dict) ∧
    derives c "InputSet" = true ∧
    PyDict.get "inputs" dict = Some (VRef li) ∧
    h !! li = Some (Obj KDict inputs) ∧
    PyDict.get "_kwargs" dict = Some (VRef lk) ∧
    h !! lk = Some (Obj KDict kwargs) ∧
    PyDict.wf inputs ∧ PyDict.wf kwargs.

(** The names [InputSet.__init__] binds itself, which a keyword argument
    cannot take: [self] and [inputs] are parameters, [_kwargs] is the
    attribute that holds the keyword arguments. *)
Definition reserved (k : string) : Prop := k = "self" ∨ k = "inputs" ∨ k = "_kwargs".

(** [h'] extends [h]: every object of [h] is in [h'] as it was. *)
Definition extends (h h' : heap) : Prop := ∃ new, h' = h ++ new.

(** The class InputSet itself and the store used in the examples. *)
Definition InputSet_cls : cls := Cls "InputSet" ["MSONable"; "MutableMapping"].

(** ** What a deep copy is *)

(** A value of a store with [n] objects: a reference points into it. *)
Definition val_ok (n : nat) (v : val) : Prop :=
  match v with
  | VRef l => l < n
  | _ => True
  end.

(** A store of the interpreter: the keys of every object are unique and no
    reference dangles. *)
Definition heap_ok (h : heap) : Prop :=
  ∀ l o, h !! l = Some o →
    PyDict.wf (oitems o) ∧ ∀ kv, kv ∈ oitems o → val_ok (length h) kv.2.

(** No InputSet of the store has an attribute named like a data
    descriptor of its type: [__init__] puts a keyword argument of such a
    name into [__dict__], where [setattr] does not put it back. *)
Definition plain_attrs (h : heap) : Prop :=
  ∀ l c d, h !! l = Some (Obj (KInst c) d) → derives c "InputSet" = true →
    ∀ k, k ∈ PyDict.keys d → k ∉ data_descriptors.

(** The copy of a value under a memo: an atom is itself, a reference
    becomes the reference the memo records for it. *)
Definition rename (m : memo) (v : val) : val :=
  match v with
  | VRef l => match m !! l with
              | Some l' => VRef l'
              | None => v
              end
  | _ => v
  end.

Definition rename_item (m : memo) (kv : string * val) : string * val :=
  (kv.1, rename m kv.2).

(** The memo knows the object a value refers to. *)
Definition covered (m : memo) (v : val) : Prop :=
  match v with
  | VRef l => is_Some (m !! l)
  | _ => True
  end.

(** In [h], [l'] holds the copy of the object that [l] holds in [h0]: the
    same kind, the same keys in the same order, and under each key the copy
    of the value. *)
Definition copy_of (h0 h : heap) (m : memo) (l l' : loc) : Prop :=
  ∃ o, h0 !! l = Some o ∧
       h !! l' = Some (Obj (okind o) (rename_item m <$> oitems o)) ∧
       ∀ kv, kv ∈ oitems o → covered m kv.2.

(** The state of a deep copy of the store [h0] under way; [P] holds of the
    objects whose copy is still being filled. *)
Definition copying (h0 : heap) (P : loc → Prop) (s : cstate) : Prop :=
  extends h0 s.1 ∧
  (∀ l l', s.2 !! l = Some l' → l < length h0 ∧ length h0 ≤ l' < length s.1) ∧
  (∀ l l', s.2 !! l = Some l' → ¬ P l → copy_of h0 s.1 s.2 l l') ∧
  (∀ l1 l2 l', s.2 !! l1 = Some l' → s.2 !! l2 = Some l' → l1 = l2).

(** The loop shared by [__deepcopy__], [_deepcopy_dict] and
    [_reconstruct]: each value is deep-copied and stored in [y] under its
    key. *)
Definition copy_fields (deepcopy : val → M cstate val) (y : loc)
    (d : PyDict.t val) : M cstate unit :=
  for_each d (λ kv, do v <- deepcopy kv.2; on_heap (set_item y kv.1 v)).

(** An InputSet whose mapping holds the collection itself: the dict at 0
    refers to the instance at 1, which refers to it. *)
Definition ex_heap_cyclic : heap :=
  [Obj KDict [("me", VRef 1); ("x", VStr "1")];
   Obj (KInst InputSet_cls) [("inputs", VRef 0); ("_kwargs", VRef 2); ("shared", VRef 0)];
   Obj KDict []].

(** A dict, then [InputSet({"x": "1"}, __class__=5)] at 1. *)
Definition ex_heap_class : heap :=
  let h0 := [Obj KDict [("x", VStr "1")]] in
  (InputSet_call InputSet_cls (VRef 0) [("__class__", VInt 5)] h0).2.

(** ** The stores of the examples *)

(** Two dicts, then [a = InputSet({"x": "1"}, foo="bar")] at 2 and
    [b = InputSet({"x": "2", "y": "3"})] at 4. *)
Definition ex_heap : heap :=
  let h0 := [Obj KDict [("x", VStr "1")]; Obj KDict [("x", VStr "2"); ("y", VStr "3")]] in
  let h1 := (InputSet_call InputSet_cls (VRef 0) [("foo", VStr "bar")] h0).2 in
  (InputSet_call InputSet_cls (VRef 1) [] h1).2.

(** A dict, then [a = InputSet({"x": "1"}, _kwargs=1)] at 1 and
    [b = InputSet()] at 3. *)
Definition ex_heap_kwargs : heap :=
  let h0 := [Obj KDict [("x", VStr "1")]] in
  let h1 := (InputSet_call InputSet_cls (VRef 0) [("_kwargs", VInt 1)] h0).2 in
  (InputSet_call InputSet_cls VNone [] h1).2.

(** A dict, then [InputSet({"InputSet.zip": "x"})] at 1. *)
Definition ex_heap_zip : heap :=
  let h0 := [Obj KDict [("InputSet.zip", VStr "x")]] in
  (InputSet_call InputSet_cls (VRef 0) [] h0).2.

(** A dict, then [InputSet({"sub/x": "1", "y": "2"})] at 1: the first file
    name has two components. *)
Definition ex_heap_sub : heap :=
  let h0 := [Obj KDict [("sub/x", VStr "1"); ("y", VStr "2")]] in
  (InputSet_call InputSet_cls (VRef 0) [] h0).2.

(** A file system with the one directory [d], and the renderings used in
    the examples. *)
Definition ex_fs : FS := {[ ["d"] := Dir ]}.
Definition ex_codec (fname : string) : codec := Plain.
Definition ex_get_str (h : heap) (x : loc) : string := "rendered".
Definition ex_builtin_str (h : heap) (v : val) : string := "repr".

(** The directory [d] with a file [y] in it. *)
Definition ex_fs_y : FS := {[ ["d"] := Dir; ["d"; "y"] := Text Plain "old" ]}.

(** An instance of a class [Incar] that derives from InputFile, at 0. *)
Definition ex_heap_file : heap :=
  [Obj (KInst (Cls "Incar" ["InputFile"; "MSONable"])) [("ENCUT", VInt 520)]].

(** What [zopen] reads back in the examples, and a [from_str] that keeps
    the text. *)
Definition ex_zopen_text (fname : string) (n : node) : result string :=
  match n with
  | Text _ s => Ok s
  | _ => Raise TypeError
  end.
Definition ex_from_str (contents : string) : result val := Ok (VStr contents).

(** An instance fresh from [cls.__new__(cls)], as [__copy__] and
    [__deepcopy__] make it: its [__dict__] is empty. *)
Definition ex_heap_new : heap := [Obj (KInst InputSet_cls) []].

(** * Properties *)

(** ** Dicts *)

Lemma filter_ext_elem {A} (P Q : A → Prop)
    `{!∀ x, Decision (P x), !∀ x, Decision (Q x)} (l : list A) :
  (∀ x, x ∈ l → (P x ↔ Q x)) → filter P l = filter Q l.
Proof.
  induction l as [|a l IH]; intros HPQ; [done|].
  rewrite !filter_cons.
  rewrite IH by (intros x Hx; apply HPQ; by right).
  apply decide_ext, HPQ. by left.
Qed.

Lemma filter_all {A} (P : A → Prop) `{!∀ x, Decision (P x)} (l : list A) :
  (∀ x, x ∈ l → P x) → filter P l = l.
Proof.
  induction l as [|a l IH]; intros HP; [done|].
  rewrite filter_cons_True by (apply HP; by left).
  f_equal. apply IH. intros x Hx. apply HP. by right.
Qed.

Module PyDictFacts.
Import PyDict.
Section facts.
Context {V : Type}.
Implicit Types (d : PyDict.t V) (k : string) (v : V).

Lemma get_None d k : get k d = None ↔ k ∉ keys d.
Proof.
  induction d as [|[k' v'] d IH]; simpl.
  - split; [intros _; apply not_elem_of_nil | done].
  - case_decide; subst.
    + split; [done | intros []; left].
    + rewrite IH, not_elem_of_cons. tauto.
Qed.

Lemma get_Some_keys d k v : get k d = Some v → k ∈ keys d.
Proof.
  intros H. destruct (decide (k ∈ keys d)) as [|Hn]; [done|].
  apply get_None in Hn. congruence.
Qed.

Lemma get_is_Some d k : is_Some (get k d) ↔ k ∈ keys d.
Proof.
  split; [intros [v ?]; eauto using get_Some_keys|].
  intros Hin. destruct (get k d) eqn:E; [eauto|].
  apply get_None in E. done.
Qed.

Lemma contains_keys d k : contains k d = true ↔ k ∈ keys d.
Proof. unfold contains. rewrite bool_decide_eq_true. apply get_is_Some. Qed.

Lemma get_set_eq d k v : get k (set k v d) = Some v.
Proof.
  induction d as [|[k' v'] d IH]; simpl.
  - by rewrite decide_True.
  - case_decide; subst; simpl.
    + by rewrite decide_True.
    + by rewrite decide_False.
Qed.

Lemma get_set_ne d k k' v : k ≠ k' → get k' (set k v d) = get k' d.
Proof.
  intros Hne. induction d as [|[k0 v0] d IH]; simpl.
  - by rewrite decide_False.
  - repeat (case_decide; simpl); congruence.
Qed.

Lemma set_new d k v : k ∉ keys d → set k v d = d ++ [(k, v)].
Proof.
  induction d as [|[k' v'] d IH]; simpl; [done|].
  rewrite not_elem_of_cons. intros [? ?].
  rewrite decide_False by done. by rewrite IH.
Qed.

Lemma keys_set_old d k v : k ∈ keys d → keys (set k v d) = keys d.
Proof.
  unfold keys. induction d as [|[k' v'] d IH]; simpl.
  - by intros ?%elem_of_nil.
  - case_decide; subst; simpl; [done|].
    rewrite elem_of_cons. intros [?|?]; [done|].
    f_equal. by apply IH.
Qed.

Lemma keys_set d k v :
  keys (set k v d) = if decide (k ∈ keys d) then keys d else keys d ++ [k].
Proof.
  case_decide.
  - by apply keys_set_old.
  - rewrite set_new by done. unfold keys. by rewrite fmap_app.
Qed.

Lemma wf_set d k v : wf d → wf (set k v d).
Proof.
  unfold wf. rewrite keys_set. case_decide; [done|].
  intros Hd. apply NoDup_app. split_and!; [done| |apply NoDup_singleton].
  intros x Hx ->%list_elem_of_singleton. done.
Qed.

Lemma wf_nil : wf ([] : PyDict.t V).
Proof. apply NoDup_nil_2. Qed.

Lemma update_snoc d o k v : update d (o ++ [(k, v)]) = set k v (update d o).
Proof. unfold update. by rewrite foldl_app. Qed.

Lemma wf_update d o : wf d → wf (update d o).
Proof.
  revert d. induction o as [|[k v] o IH]; intros d Hd; simpl; [done|].
  apply IH. by apply wf_set.
Qed.

Lemma update_nil_wf d : wf d → update [] d = d.
Proof.
  induction d as [|[k v] d IH] using rev_ind; [done|].
  unfold wf, keys. rewrite fmap_app, NoDup_app. simpl.
  intros (Hd & Hk & _). rewrite update_snoc, IH by done.
  apply set_new. intros Hin. apply (Hk k Hin). apply list_elem_of_singleton. done.
Qed.

Lemma get_update d o k :
  wf o → get k (update d o) = match get k o with
                              | Some v => Some v
                              | None => get k d
                              end.
Proof.
  induction o as [|[k' v'] o IH] using rev_ind; [done|].
  unfold wf, keys. rewrite fmap_app, NoDup_app. simpl.
  intros (Ho & Hk & _). rewrite update_snoc.
  destruct (decide (k' = k)) as [->|Hne].
  - rewrite get_set_eq.
    assert (get k o = None) as Hnone.
    { apply get_None. intros Hin. apply (Hk k Hin). apply list_elem_of_singleton. done. }
    clear IH. induction o as [|[k0 v0] o IHo]; simpl in *.
    + by rewrite decide_True.
    + case_decide; [done|]. apply IHo; [by inversion Ho| |done].
      intros x Hx. apply Hk. by right.
  - rewrite get_set_ne, IH by done.
    assert (get k (o ++ [(k', v')]) = get k o) as ->; [|done].
    clear -Hne. induction o as [|[k0 v0] o IHo]; simpl.
    + by rewrite decide_False.
    + case_decide; done.
Qed.

(** Keys of [d.update(o)]: those of [d] in their order, then the new ones
    in the order of [o]. *)
Lemma keys_update d o :
  wf o → keys (update d o) = keys d ++ filter (λ k, k ∉ keys d) (keys o).
Proof.
  revert d. induction o as [|[k v] o IH]; intros d Ho; simpl.
  - by rewrite filter_nil, app_nil_r.
  - unfold wf in Ho. simpl in Ho. apply NoDup_cons in Ho as [Hk Ho].
    change (foldl _ (set k v d) o) with (update (set k v d) o).
    rewrite IH by done. rewrite keys_set, filter_cons. simpl.
    case_decide as Hin.
    + rewrite decide_False by naive_solver. done.
    + rewrite decide_True by done. rewrite <- app_assoc. simpl. f_equal. f_equal.
      apply filter_ext_elem. intros x Hx.
      rewrite elem_of_app, list_elem_of_singleton.
      split; [tauto|]. intros Hnx [?| ->]; done.
Qed.

(** The display [{**a, **b}]: [b] wins on every shared key, a key of one
    side only keeps its value; the keys of [a] come first, in their
    order, then those only in [b]. *)
Lemma get_merge (a b : PyDict.t V) k :
  wf a → wf b → get k (merge a b) = match get k b with
                                    | Some v => Some v
                                    | None => get k a
                                    end.
Proof. intros Ha Hb. unfold merge. rewrite update_nil_wf by done. by apply get_update. Qed.

Lemma keys_merge (a b : PyDict.t V) :
  wf a → wf b → keys (merge a b) = keys a ++ filter (λ k, k ∉ keys a) (keys b).
Proof. intros Ha Hb. unfold merge. rewrite update_nil_wf by done. by apply keys_update. Qed.

Lemma wf_merge (a b : PyDict.t V) : wf (merge a b).
Proof. unfold merge. apply wf_update, wf_update, wf_nil. Qed.

Lemma del_None d k : del k d = None ↔ k ∉ keys d.
Proof.
  induction d as [|[k' v'] d IH]; simpl.
  - split; [intros _; apply not_elem_of_nil | done].
  - case_decide; subst.
    + split; [done | intros []; left].
    + rewrite fmap_None, IH, not_elem_of_cons. tauto.
Qed.

Lemma del_Some d k d' :
  wf d → del k d = Some d' →
  get k d' = None ∧ (∀ k', k' ≠ k → get k' d' = get k' d) ∧
  keys d' = filter (λ x, x ≠ k) (keys d).
Proof.
  revert d'. induction d as [|[k0 v0] d IH]; intros d' Hwf; simpl; [done|].
  unfold wf in Hwf. simpl in Hwf. apply NoDup_cons in Hwf as [Hk Hd].
  rewrite filter_cons. simpl. case_decide as Hk0; subst.
  - intros [= <-]. split_and!.
    + by apply get_None.
    + intros k' Hne. by rewrite decide_False.
    + rewrite decide_False by (intros ?; done). symmetry.
      apply filter_all. intros x Hx ->. done.
  - intros (d1 & Hd1 & ->)%fmap_Some. destruct (IH d1 Hd Hd1) as (Hg & Hother & Hkeys).
    simpl. split_and!.
    + by rewrite decide_False.
    + intros k' Hne. case_decide; [done|]. by apply Hother.
    + rewrite decide_True by naive_solver. simpl. by rewrite Hkeys.
Qed.

Lemma len_keys d : len d = length (keys d).
Proof. unfold len, keys. by rewrite length_fmap. Qed.
End facts.
End PyDictFacts.

(** ** The store *)

Lemma extends_refl h : extends h h.
Proof. exists []. by rewrite app_nil_r. Qed.

Lemma extends_trans h1 h2 h3 : extends h1 h2 → extends h2 h3 → extends h1 h3.
Proof. intros [n1 ->] [n2 ->]. exists (n1 ++ n2). by rewrite app_assoc. Qed.

Lemma extends_lookup h h' l o : extends h h' → h !! l = Some o → h' !! l = Some o.
Proof. intros [new ->] Hl. by apply lookup_app_l_Some. Qed.

Lemma extends_length h h' : extends h h' → length h ≤ length h'.
Proof. intros [new ->]. rewrite length_app. lia. Qed.

Lemma extends_app h new : extends h (h ++ new).
Proof. by exists new. Qed.

Lemma extends_insert_new h h' l o :
  extends h h' → length h ≤ l → extends h (<[l := o]> h').
Proof.
  intros [new ->] Hl. exists (<[l - length h := o]> new).
  by rewrite insert_app_r_alt.
Qed.

(** ** Attribute access *)

Lemma getattr_rec_dict depth h self c dict name v :
  h !! self = Some (Obj (KInst c) dict) →
  PyDict.get name dict = Some v →
  getattr_rec (S depth) h self name = Ok v.
Proof. intros Hs Hn. cbn [getattr_rec]. by rewrite Hs, Hn. Qed.

Lemma getattr_dict h self c dict name v :
  h !! self = Some (Obj (KInst c) dict) →
  PyDict.get name dict = Some v →
  getattr h self name = Ok v.
Proof. apply getattr_rec_dict. Qed.

(** A name that is not in [__dict__] goes to [__getattr__]. *)
Lemma getattr_missing h self c dict name :
  h !! self = Some (Obj (KInst c) dict) →
  derives c "InputSet" = true →
  PyDict.get name dict = None →
  getattr h self name
  = InputSet___getattr__ (getattr_rec (pred recursionlimit)) h self name.
Proof.
  intros Hs Hc Hn. unfold getattr.
  change recursionlimit with (S (pred recursionlimit)).
  cbn [getattr_rec]. by rewrite Hs, Hn, Hc.
Qed.

Lemma InputSet_at_mapping h self c li inputs lk kwargs :
  InputSet_at h self c li inputs lk kwargs → InputSet_mapping h self c li inputs.
Proof. intros (dict & Hs & Hc & Hi & Hli & _ & _ & Hw & _). by exists dict. Qed.

Lemma mapping_inputs h self c li inputs :
  InputSet_mapping h self c li inputs →
  getattr h self "inputs" = Ok (VRef li) ∧ self_inputs h self = Ok inputs.
Proof.
  intros (dict & Hs & _ & Hi & Hli & _).
  assert (getattr h self "inputs" = Ok (VRef li)) as Hg by eauto using getattr_dict.
  split; [done|]. unfold self_inputs, unpack, as_dict. by rewrite Hg, Hli.
Qed.

Lemma mapping_type h self c li inputs :
  InputSet_mapping h self c li inputs → type_of h self = Some c.
Proof. intros (dict & Hs & _). unfold type_of. by rewrite Hs. Qed.

Lemma mapping_not_dict h self c li inputs :
  InputSet_mapping h self c li inputs → is_dict h (VRef self) = false.
Proof. intros (dict & Hs & _). unfold is_dict, as_dict. by rewrite Hs. Qed.

(** Writing to the dict of [inputs] leaves the instance as it is. *)
Lemma mapping_store h self c li inputs inputs' :
  InputSet_mapping h self c li inputs →
  PyDict.wf inputs' →
  self_inputs (<[li := Obj KDict inputs']> h) self = Ok inputs' ∧
  getattr (<[li := Obj KDict inputs']> h) self "inputs" = Ok (VRef li).
Proof.
  intros (dict & Hs & Hc & Hi & Hli & _) Hwf.
  assert (self ≠ li) as Hne by (intros ->; congruence).
  assert (getattr (<[li := Obj KDict inputs']> h) self "inputs" = Ok (VRef li)) as Hg.
  { eapply getattr_dict; [|done]. by rewrite list_lookup_insert_ne. }
  split; [|done]. unfold self_inputs, unpack, as_dict. rewrite Hg.
  rewrite list_lookup_insert_eq; [done|]. by eapply lookup_lt_Some.
Qed.

Lemma InputSet_at_inputs h self c li inputs lk kwargs :
  InputSet_at h self c li inputs lk kwargs →
  getattr h self "inputs" = Ok (VRef li) ∧ self_inputs h self = Ok inputs.
Proof. intros Hat. eapply mapping_inputs, InputSet_at_mapping, Hat. Qed.

Lemma InputSet_at_kwargs h self c li inputs lk kwargs :
  InputSet_at h self c li inputs lk kwargs →
  getattr h self "_kwargs" = Ok (VRef lk).
Proof. intros (dict & Hs & _ & _ & _ & Hk & _). eauto using getattr_dict. Qed.

Lemma InputSet_at_type h self c li inputs lk kwargs :
  InputSet_at h self c li inputs lk kwargs → type_of h self = Some c.
Proof. intros (dict & Hs & _). unfold type_of. by rewrite Hs. Qed.

Lemma InputSet_at_extends h h' self c li inputs lk kwargs :
  extends h h' →
  InputSet_at h self c li inputs lk kwargs →
  InputSet_at h' self c li inputs lk kwargs.
Proof.
  intros Hext (dict & Hs & Hc & Hi & Hli & Hk & Hlk & Hw).
  exists dict. split_and!; eauto using extends_lookup; apply Hw.
Qed.

(** ** The container protocol of InputSet *)

(** C8: for every InputSet, [len] is the number of keys of the mapping and
    iteration yields exactly its keys, in insertion order and without
    repetition; [c[key]] returns the content stored under a present key,
    [c[key] = value] binds the key to the new content (a present key keeps
    its place, a new one goes last, the other keys keep their content), and
    [del c[key]] removes a present key and nothing else. *)
Theorem InputSet_mutable_mapping h self c li inputs :
  InputSet_mapping h self c li inputs →
  InputSet___len__ h self = Ok (length (PyDict.keys inputs)) ∧
  InputSet___iter__ h self = Ok (PyDict.keys inputs) ∧
  NoDup (PyDict.keys inputs) ∧
  (∀ key v, PyDict.get key inputs = Some v →
     InputSet___getitem__ getattr h self key = Ok v) ∧
  (∀ key v, ∃ h',
     InputSet___setitem__ self key v h = (Ok (), h') ∧
     self_inputs h' self = Ok (PyDict.set key v inputs) ∧
     InputSet___getitem__ getattr h' self key = Ok v ∧
     InputSet___iter__ h' self
       = Ok (if decide (key ∈ PyDict.keys inputs) then PyDict.keys inputs
             else PyDict.keys inputs ++ [key]) ∧
     ∀ key', key' ≠ key →
       InputSet___getitem__ getattr h' self key' = InputSet___getitem__ getattr h self key') ∧
  (∀ key, key ∈ PyDict.keys inputs → ∃ h',
     InputSet___delitem__ self key h = (Ok (), h') ∧
     InputSet___getitem__ getattr h' self key = Raise (KeyError key) ∧
     InputSet___iter__ h' self = Ok (filter (λ k, k ≠ key) (PyDict.keys inputs)) ∧
     ∀ key', key' ≠ key →
       InputSet___getitem__ getattr h' self key' = InputSet___getitem__ getattr h self key').
Proof.
  intros Hat. pose proof Hat as (dict & Hs & Hc & Hi & Hli & Hwi).
  destruct (mapping_inputs _ _ _ _ _ Hat) as [Hg Hself].
  assert (∀ k, InputSet___getitem__ getattr h self k
               = match PyDict.get k inputs with
                 | Some v => Ok v
                 | None => Raise (KeyError k)
                 end) as Hget.
  { intros k. unfold InputSet___getitem__, subscript, as_dict. by rewrite Hg, Hli. }
  assert (∀ inputs', PyDict.wf inputs' →
            let h' := <[li := Obj KDict inputs']> h in
            InputSet___iter__ h' self = Ok (PyDict.keys inputs') ∧
            ∀ k, InputSet___getitem__ getattr h' self k
                 = match PyDict.get k inputs' with
                   | Some v => Ok v
                   | None => Raise (KeyError k)
                   end) as Hafter.
  { intros inputs' Hw h'.
    destruct (mapping_store _ _ _ _ _ inputs' Hat Hw) as [Hs' Hg'].
    fold h' in Hs', Hg'. unfold self_inputs in Hs'. rewrite Hg' in Hs'.
    split.
    - unfold InputSet___iter__. rewrite Hg'. by destruct (unpack h' (VRef li)); simplify_eq.
    - intros k. unfold InputSet___getitem__, subscript. rewrite Hg'.
      unfold unpack in Hs'. by destruct (as_dict h' (VRef li)); simplify_eq. }
  split_and!.
  - unfold InputSet___len__, unpack, as_dict. rewrite Hg, Hli.
    by rewrite PyDictFacts.len_keys.
  - unfold InputSet___iter__, unpack, as_dict. by rewrite Hg, Hli.
  - done.
  - intros key v Hv. by rewrite Hget, Hv.
  - intros key v. exists (<[li := Obj KDict (PyDict.set key v inputs)]> h).
    destruct (Hafter (PyDict.set key v inputs)) as [Hit Hget'];
      [by apply PyDictFacts.wf_set|].
    split_and!.
    + unfold InputSet___setitem__, bind, read, store_subscript. by rewrite Hg, Hli.
    + by apply (mapping_store _ _ _ _ _ _ Hat), PyDictFacts.wf_set.
    + by rewrite Hget', PyDictFacts.get_set_eq.
    + by rewrite Hit, PyDictFacts.keys_set.
    + intros key' Hne. by rewrite Hget', Hget, PyDictFacts.get_set_ne.
  - intros key Hin.
    destruct (PyDict.del key inputs) as [inputs'|] eqn:Hdel;
      [|by apply PyDictFacts.del_None in Hdel].
    destruct (PyDictFacts.del_Some _ _ _ Hwi Hdel) as (Hnone & Hother & Hkeys).
    assert (PyDict.wf inputs') as Hw'.
    { unfold PyDict.wf. rewrite Hkeys. by apply NoDup_filter. }
    exists (<[li := Obj KDict inputs']> h).
    destruct (Hafter inputs' Hw') as [Hit Hget'].
    split_and!.
    + unfold InputSet___delitem__, bind, read, del_subscript. by rewrite Hg, Hli, Hdel.
    + by rewrite Hget', Hnone.
    + by rewrite Hit, Hkeys.
    + intros key' Hne. by rewrite Hget', Hget, Hother.
Qed.

(** ** The methods a concrete class must provide *)

(** C5: the base [from_str], [from_directory], [validate] and
    [get_input_set] each raise [NotImplementedError] with a message that
    ends in the name of the class they were called on; none of them
    returns a value, and [validate] in particular answers neither [True]
    nor [False]. *)
Theorem base_methods_raise_NotImplementedError
    (c : cls) (h : heap) (self : loc) (contents : string) (directory : path)
    (args : list val) (kwargs : PyDict.t val) :
  type_of h self = Some c →
  @InputFile_from_str val c contents
    = Raise (NotImplementedError ("from_str has not been implemented in " +:+ cname c)) ∧
  @InputSet_from_directory val c directory
    = Raise (NotImplementedError ("from_directory has not been implemented in " +:+ cname c)) ∧
  InputSet_validate h self
    = Raise (NotImplementedError (".validate() has not been implemented in " +:+ cname c)) ∧
  InputGenerator_get_input_set h self args kwargs
    = Raise (NotImplementedError ("get_input_set has not been implemented in " +:+ cname c)) ∧
  (∀ b, InputSet_validate h self ≠ Ok b).
Proof.
  intros Hty. unfold InputSet_validate, InputGenerator_get_input_set.
  rewrite Hty. by split_and!.
Qed.

(** ** Construction *)

Lemma for_each_set_item (l : loc) k d (kw : PyDict.t val) (h : heap) :
  h !! l = Some (Obj k d) →
  for_each kw (λ kv, set_item l kv.1 kv.2) h
  = (Ok (), <[l := Obj k (PyDict.update d kw)]> h).
Proof.
  revert d h. induction kw as [|[k0 v0] kw IH]; intros d h Hl; simpl.
  - unfold ret. by rewrite list_insert_id.
  - unfold bind, set_item at 1. rewrite Hl. simpl.
    rewrite (IH (PyDict.set k0 v0 d)).
    + by rewrite list_insert_insert_eq.
    + apply list_lookup_insert_eq. by eapply lookup_lt_Some.
Qed.

(** What the call [c(inputs, **kwargs)] leaves in the store: the new
    instance, the dict of the keyword arguments and, when [inputs] is
    falsy, a new empty dict. *)
Lemma InputSet_call_spec c (inputs : val) (kwargs : PyDict.t val) (h : heap) :
  "self" ∉ PyDict.keys kwargs → "inputs" ∉ PyDict.keys kwargs →
  let self := length h in
  let h2 := h ++ [Obj (KInst c) []; Obj KDict kwargs] in
  let inputs' := if truthy h2 inputs then inputs else VRef (S (S self)) in
  let dict := PyDict.update [("inputs", inputs'); ("_kwargs", VRef (S self))] kwargs in
  InputSet_call c inputs kwargs h
  = (Ok self,
     h ++ [Obj (KInst c) dict; Obj KDict kwargs]
       ++ (if truthy h2 inputs then [] else [Obj KDict []])).
Proof.
  intros Hself Hinputs self h2 inputs' dict. subst self.
  unfold InputSet_call, bind, alloc at 1.
  rewrite bool_decide_eq_false_2 by tauto.
  unfold alloc at 1. rewrite length_app. simpl.
  replace (length h + 1) with (S (length h)) by lia.
  rewrite <- app_assoc. simpl. fold h2.
  unfold InputSet___init__.
  assert (∀ (h3 : heap) v, extends h2 h3 →
            (set_item (length h) "inputs" v ;;
             set_item (length h) "_kwargs" (VRef (S (length h))) ;;
             do kw <- read (λ h0, unpack h0 (VRef (S (length h))));
             for_each kw (λ kv, set_item (length h) kv.1 kv.2)) h3
            = (Ok (), <[length h := Obj (KInst c)
                 (PyDict.update [("inputs", v); ("_kwargs", VRef (S (length h)))] kwargs)]> h3))
    as Hbody.
  { intros h3 v Hext.
    assert (h3 !! length h = Some (Obj (KInst c) [])) as Hs.
    { eapply extends_lookup; [done|]. unfold h2.
      by rewrite lookup_app_r, Nat.sub_diag by lia. }
    assert (length h < length h3) as Hlt by (by eapply lookup_lt_Some).
    assert (h3 !! S (length h) = Some (Obj KDict kwargs)) as Hk.
    { eapply extends_lookup; [done|]. unfold h2.
      rewrite lookup_app_r by lia. by replace (S (length h) - length h) with 1 by lia. }
    unfold bind, set_item at 1. rewrite Hs. simpl.
    unfold set_item at 1. rewrite list_lookup_insert_eq by done. simpl.
    rewrite list_insert_insert_eq.
    unfold read, unpack, as_dict.
    rewrite !list_lookup_insert_ne, Hk by lia.
    erewrite for_each_set_item; [|by apply list_lookup_insert_eq].
    by rewrite list_insert_insert_eq. }
  unfold bind at 1. unfold bind at 1.
  unfold inputs' in *. destruct (truthy h2 inputs).
  - unfold ret at 1. rewrite (Hbody h2 inputs (extends_refl _)).
    unfold ret. f_equal. unfold h2.
    rewrite ?app_nil_r. by rewrite insert_app_r_alt, Nat.sub_diag by lia.
  - unfold bind at 1, alloc, ret at 1. unfold h2 at 1 2. rewrite length_app. simpl.
    replace (length h + 2) with (S (S (length h))) by lia.
    pose proof (Hbody (h2 ++ [Obj KDict []]) (VRef (S (S (length h)))) (extends_app _ _)) as Hb.
    unfold bind at 1 in Hb. unfold h2 in Hb. rewrite Hb.
    unfold ret. f_equal. unfold h2.
    rewrite <- app_assoc. simpl.
    by rewrite insert_app_r_alt, Nat.sub_diag by lia.
Qed.

Lemma bind_Ok {S A B} (c : M S A) (k : A → M S B) s a s' :
  c s = (Ok a, s') → bind c k s = k a s'.
Proof. unfold bind. by intros ->. Qed.

Lemma bind_Raise {S A B} (c : M S A) (k : A → M S B) s e s' :
  c s = (Raise e, s') → bind c k s = (Raise e, s').
Proof. unfold bind. by intros ->. Qed.

Lemma read_Ok {S A} (f : S → result A) s a : f s = Ok a → read f s = (Ok a, s).
Proof. unfold read. by intros ->. Qed.

(** The collection the call [c(d, **kwargs)] builds from a dict [d]: its
    mapping has the items of [d] (it is [d] itself unless [d] is empty) and
    its keyword arguments are [kwargs]. *)
Lemma InputSet_call_at c (li : loc) (d kwargs : PyDict.t val) (h : heap) :
  derives c "InputSet" = true →
  (∀ k, k ∈ PyDict.keys kwargs → ¬ reserved k) →
  PyDict.wf kwargs → PyDict.wf d →
  h !! li = Some (Obj KDict d) →
  ∃ h' li',
    InputSet_call c (VRef li) kwargs h = (Ok (length h), h') ∧
    extends h h' ∧
    InputSet_at h' (length h) c li' d (S (length h)) kwargs ∧
    (li' = li ∨ length h ≤ li').
Proof.
  intros Hc Hres Hwk Hwd Hli.
  assert (∀ k, reserved k → PyDict.get k kwargs = None) as Hnone.
  { intros k Hk. apply PyDictFacts.get_None. intros Hin. by apply (Hres k). }
  assert (("self" ∉ PyDict.keys kwargs) ∧ ("inputs" ∉ PyDict.keys kwargs)) as [H1 H2].
  { split; intros Hin; apply (Hres _ Hin); unfold reserved; auto. }
  pose proof (InputSet_call_spec c (VRef li) kwargs h H1 H2) as Hcall.
  cbv zeta in Hcall. rewrite Hcall. clear Hcall.
  set (h2 := h ++ [Obj (KInst c) []; Obj KDict kwargs]).
  assert (li < length h) as Hlt by (by eapply lookup_lt_Some).
  assert (truthy h2 (VRef li) = negb (bool_decide (d = []))) as ->.
  { unfold truthy, h2. by rewrite lookup_app_l, Hli by done. }
  set (li' := if negb (bool_decide (d = [])) then VRef li else VRef (S (S (length h)))).
  set (h' := h ++ _).
  assert (h' !! length h = Some (Obj (KInst c)
            (PyDict.update [("inputs", li'); ("_kwargs", VRef (S (length h)))] kwargs))) as Hs.
  { unfold h'. by rewrite lookup_app_r, Nat.sub_diag by lia. }
  assert (h' !! S (length h) = Some (Obj KDict kwargs)) as Hk.
  { unfold h'. rewrite lookup_app_r by lia.
    by replace (S (length h) - length h) with 1 by lia. }
  assert (extends h h') as Hext by apply extends_app.
  assert (∀ l0, li' = VRef l0 → h' !! l0 = Some (Obj KDict d) →
          InputSet_at h' (length h) c l0 d (S (length h)) kwargs) as Hat.
  { intros l0 Hl0 Hd. eexists. split_and!; [exact Hs|done| | done | |done|done|done].
    - rewrite PyDictFacts.get_update, Hnone by (done || unfold reserved; auto).
      simpl. by rewrite Hl0.
    - rewrite PyDictFacts.get_update, Hnone by (done || unfold reserved; auto).
      done. }
  exists h'. unfold li' in *. case_bool_decide as Hd; simpl in *.
  - exists (S (S (length h))). split_and!; [done|done| |right; lia].
    apply Hat; [done|]. subst d. unfold h'. rewrite lookup_app_r by lia.
    by replace (S (S (length h)) - length h) with 2 by lia.
  - exists li. split_and!; [done|done| |by left].
    apply Hat; [done|]. by eapply extends_lookup.
Qed.

(** ** The union operator *)

(** For a class that inherits [__init__], the operator is the one that
    calls [InputSet_call]. *)
Lemma InputSet_or_inherited construct c (self : loc) (other : val) (h : heap) :
  inherits_init construct c →
  type_of h self = Some c →
  InputSet___or__ construct self other h = InputSet___or__ InputSet_call self other h.
Proof.
  intros Hinit Hty. unfold InputSet___or__, bind, read, ret. rewrite Hty.
  destruct (is_dict h other).
  - rewrite Hinit. destruct (InputSet_call c other [] h) as [[o|e] h1]; [|done].
    destruct (negb (isinstance h1 (VRef o) (cname c))); [done|].
    destruct (getattr h1 self "inputs") as [i|e]; [|done].
    destruct (unpack h1 i) as [a|e]; [|done].
    destruct (getattr h1 o "inputs") as [i'|e]; [|done].
    destruct (unpack h1 i') as [b|e]; [|done].
    destruct (alloc (Obj KDict (PyDict.merge a b)) h1) as [[merged|e] h2]; [|done].
    destruct (getattr h2 self "_kwargs") as [k|e]; [|done].
    destruct (unpack h2 k) as [kw|e]; [|done].
    by rewrite Hinit.
  - destruct (negb (isinstance h other (cname c))); [done|].
    destruct (getattr h self "inputs") as [i|e]; [|done].
    destruct (unpack h i) as [a|e]; [|done].
    destruct other as [| | | | |o]; try done.
    destruct (getattr h o "inputs") as [i'|e]; [|done].
    destruct (unpack h i') as [b|e]; [|done].
    destruct (alloc (Obj KDict (PyDict.merge a b)) h) as [[merged|e] h2]; [|done].
    destruct (getattr h2 self "_kwargs") as [k|e]; [|done].
    destruct (unpack h2 k) as [kw|e]; [|done].
    by rewrite Hinit.
Qed.

Lemma mapping_extends h h' self c li inputs :
  extends h h' → InputSet_mapping h self c li inputs → InputSet_mapping h' self c li inputs.
Proof.
  intros Hext (dict & Hs & Hc & Hi & Hli & Hw).
  exists dict. split_and!; eauto using extends_lookup.
Qed.

(** The union of two instances of a class that inherits [__init__], as the
    code computes it. *)
Lemma InputSet_or_instance h a b c cb la ia lka ka lb ib :
  InputSet_at h a c la ia lka ka →
  InputSet_mapping h b cb lb ib →
  derives cb (cname c) = true →
  (∀ k, k ∈ PyDict.keys ka → ¬ reserved k) →
  ∃ r h' lr lkr,
    InputSet___or__ InputSet_call a (VRef b) h = (Ok (VRef r), h') ∧
    extends h h' ∧
    length h ≤ r ∧ length h ≤ lr ∧ length h ≤ lkr ∧
    InputSet_at h' r c lr (PyDict.merge ia ib) lkr ka.
Proof.
  intros Ha Hb Hsub Hres.
  pose proof Ha as (dicta & Hsa & Hca & _ & _ & _ & _ & Hwia & Hwka).
  pose proof Hb as (dictb & Hsb & _ & _ & _ & Hwib).
  set (h1 := h ++ [Obj KDict (PyDict.merge ia ib)]).
  assert (extends h h1) as Hext1 by apply extends_app.
  destruct (InputSet_call_at c (length h) (PyDict.merge ia ib) ka h1)
    as (h' & lr & Hcall & Hext' & Hat & Hlr); [done|done|done|apply PyDictFacts.wf_merge| |].
  { unfold h1. by rewrite lookup_app_r, Nat.sub_diag by lia. }
  assert (length h1 = S (length h)) as Hlen1.
  { unfold h1. rewrite length_app. simpl. lia. }
  exists (length h1), h', lr, (S (length h1)).
  split_and!; [|by eapply extends_trans|lia|destruct Hlr; lia|lia|done].
  unfold InputSet___or__.
  erewrite bind_Ok; [|apply read_Ok; by rewrite (InputSet_at_type _ _ _ _ _ _ _ Ha)].
  erewrite bind_Ok;
    [|cbn beta; by rewrite (mapping_not_dict _ _ _ _ _ Hb)].
  erewrite bind_Ok; [|by apply read_Ok].
  assert (isinstance h (VRef b) (cname c) = true) as ->.
  { unfold isinstance. by rewrite (mapping_type _ _ _ _ _ Hb). }
  change (negb true) with false. cbv iota.
  erewrite bind_Ok; [|apply read_Ok; by apply (InputSet_at_inputs _ _ _ _ _ _ _ Ha)].
  erewrite bind_Ok; [|apply read_Ok; by apply (mapping_inputs _ _ _ _ _ Hb)].
  erewrite bind_Ok; [|reflexivity]. fold h1.
  erewrite bind_Ok.
  2:{ apply read_Ok.
      rewrite (InputSet_at_kwargs _ _ _ _ _ _ _ (InputSet_at_extends _ _ _ _ _ _ _ _ Hext1 Ha)).
      unfold unpack, as_dict.
      destruct Ha as (? & _ & _ & _ & _ & _ & Hlk & _).
      by rewrite (extends_lookup _ _ _ _ Hext1 Hlk). }
  erewrite bind_Ok; [|exact Hcall]. done.
Qed.

(** The union of a collection of a class that inherits [__init__] with a
    plain dict [d] returns a new collection of the class of the left
    operand, with its keyword arguments; its mapping is a new dict in
    which the entries of [d] lie over those of the collection.  Neither
    the collection nor [d] is changed. *)
Lemma InputSet_or_dict h a c la ia lka ka (l : loc) (d : PyDict.t val) :
  InputSet_at h a c la ia lka ka →
  h !! l = Some (Obj KDict d) →
  PyDict.wf d →
  (∀ k, k ∈ PyDict.keys ka → ¬ reserved k) →
  ∃ r h' lr lkr,
    InputSet___or__ InputSet_call a (VRef l) h = (Ok (VRef r), h') ∧
    extends h h' ∧
    length h ≤ r ∧ length h ≤ lr ∧ length h ≤ lkr ∧
    InputSet_at h' r c lr (PyDict.merge ia d) lkr ka ∧
    (∀ k, PyDict.get k (PyDict.merge ia d)
          = match PyDict.get k d with
            | Some v => Some v
            | None => PyDict.get k ia
            end).
Proof.
  intros Ha Hl Hwd Hres.
  pose proof Ha as (dicta & Hsa & Hca & _ & _ & _ & _ & Hwia & Hwka).
  destruct (InputSet_call_at c l d [] h) as (h1 & li' & Hcall & Hext1 & Hato & _);
    [done|by intros k ?%elem_of_nil|apply NoDup_nil_2|done|done|].
  assert (InputSet___or__ InputSet_call a (VRef l) h
          = InputSet___or__ InputSet_call a (VRef (length h)) h1) as ->.
  { unfold InputSet___or__ at 1.
    erewrite bind_Ok; [|apply read_Ok; by rewrite (InputSet_at_type _ _ _ _ _ _ _ Ha)].
    erewrite bind_Ok.
    2:{ cbn beta. unfold is_dict, as_dict. rewrite Hl.
        erewrite bind_Ok; [reflexivity|exact Hcall]. }
    symmetry. unfold InputSet___or__.
    erewrite bind_Ok.
    2:{ apply read_Ok.
        by rewrite (InputSet_at_type _ _ _ _ _ _ _ (InputSet_at_extends _ _ _ _ _ _ _ _ Hext1 Ha)). }
    erewrite bind_Ok;
      [|cbn beta; by rewrite (mapping_not_dict _ _ _ _ _ (InputSet_at_mapping _ _ _ _ _ _ _ Hato))].
    reflexivity. }
  destruct (InputSet_or_instance h1 a (length h) c c la ia lka ka li' d)
    as (r & h' & lr & lkr & Hor & Hext' & Hr & Hlr & Hlkr & Hat).
  { by eapply InputSet_at_extends. }
  { by eapply InputSet_at_mapping. }
  { unfold derives. apply bool_decide_eq_true. by left. }
  { done. }
  pose proof (extends_length _ _ Hext1).
  exists r, h', lr, lkr.
  split_and!; [done|by eapply extends_trans|lia|lia|lia|done|].
  intros k. by apply PyDictFacts.get_merge.
Qed.


Lemma ex_heap_a :
  InputSet_at ex_heap 2 InputSet_cls 0 [("x", VStr "1")] 3 [("foo", VStr "bar")].
Proof.
  eexists. split_and!; try (vm_compute; reflexivity);
    apply (bool_decide_unpack _); vm_compute; reflexivity.
Qed.

Lemma ex_heap_b :
  InputSet_at ex_heap 4 InputSet_cls 1 [("x", VStr "2"); ("y", VStr "3")] 5 [].
Proof.
  eexists. split_and!; try (vm_compute; reflexivity);
    apply (bool_decide_unpack _); vm_compute; reflexivity.
Qed.





(** ** Attribute lookup of the keyword arguments *)

(** After construction, from [None] or a dict, every keyword argument
    whose name is no data descriptor of the type is an attribute: the
    lookup finds it in [__dict__]. *)
Lemma InputSet_call_getattr c (inputs : val) (kwargs : PyDict.t val) (h : heap) key v :
  inputs = VNone ∨ is_dict h inputs = true →
  "self" ∉ PyDict.keys kwargs → "inputs" ∉ PyDict.keys kwargs →
  PyDict.wf kwargs →
  key ∉ data_descriptors →
  PyDict.get key kwargs = Some v →
  ∃ self h', InputSet_call c inputs kwargs h = (Ok self, h') ∧
             getattr h' self key = Ok v.
Proof.
  intros _ H1 H2 Hwf _ Hv.
  pose proof (InputSet_call_spec c inputs kwargs h H1 H2) as Hcall.
  cbv zeta in Hcall. eexists _, _. split; [exact Hcall|].
  eapply getattr_dict.
  - by rewrite lookup_app_r, Nat.sub_diag by lia.
  - by rewrite PyDictFacts.get_update, Hv.
Qed.

(** [__getattr__], which the interpreter calls for a name that neither
    the instance nor its class has, finds no attribute when the name is
    not among the keyword arguments: [AttributeError] with the name of the
    class. *)
Lemma InputSet_getattr_unknown h self c li inputs lk kwargs key :
  InputSet_at h self c li inputs lk kwargs →
  key ∉ PyDict.keys kwargs →
  InputSet___getattr__ getattr h self key = Raise (AttributeError (qualname_msg c key)).
Proof.
  intros Hat Hnk.
  unfold InputSet___getattr__.
  rewrite (InputSet_at_kwargs _ _ _ _ _ _ _ Hat).
  pose proof Hat as (dict & Hs & _ & _ & _ & _ & Hlk & _).
  unfold py_in, as_dict. rewrite Hlk.
  assert (PyDict.contains key kwargs = false) as ->.
  { apply not_true_is_false. by rewrite PyDictFacts.contains_keys. }
  unfold type_of. by rewrite Hs.
Qed.

(** C4, what the code does: on an instance that has no attribute [get]
    of its own (no keyword argument was named [get]), for a name among
    the keyword arguments, [__getattr__] returns [self.get(key)], the
    content the file mapping [inputs] holds under that name or [None], and
    not the value of the keyword argument. *)
Theorem InputSet_getattr_reads_inputs h self c li inputs lk kwargs key :
  InputSet_at h self c li inputs lk kwargs →
  (∀ dict, instance_dict h self = Some dict → PyDict.get "get" dict = None) →
  key ∈ PyDict.keys kwargs →
  InputSet___getattr__ getattr h self key = Ok (default VNone (PyDict.get key inputs)).
Proof.
  intros Hat Hget Hkey.
  pose proof Hat as (dict & Hs & Hc & Hi & Hli & Hk & Hlk & _).
  unfold InputSet___getattr__.
  rewrite (InputSet_at_kwargs _ _ _ _ _ _ _ Hat).
  unfold py_in, as_dict. rewrite Hlk.
  assert (PyDict.contains key kwargs = true) as -> by (by apply PyDictFacts.contains_keys).
  assert (instance_dict h self = Some dict) as Hid by (unfold instance_dict; by rewrite Hs).
  unfold self_get. rewrite Hid, (Hget dict Hid).
  unfold Mapping_get, InputSet___getitem__, subscript, as_dict.
  rewrite (proj1 (InputSet_at_inputs _ _ _ _ _ _ _ Hat)), Hli.
  by destruct (PyDict.get key inputs).
Qed.

(** With [a = InputSet({"x": "1"}, foo="bar")]: the keyword argument [foo]
    is stored with the value ["bar"], and [a.__getattr__("foo")] returns
    [None]. *)
Lemma InputSet_getattr_reads_inputs_witness :
  as_dict ex_heap (VRef 3) = Some [("foo", VStr "bar")] ∧
  InputSet___getattr__ getattr ex_heap 2 "foo" = Ok VNone.
Proof.
  split; [reflexivity|].
  apply (InputSet_getattr_reads_inputs ex_heap 2 _ _ _ _ _ "foo" ex_heap_a).
  - intros dict Hd. vm_compute in Hd. injection Hd as <-. reflexivity.
  - apply list_elem_of_singleton. reflexivity.
Defined.

Lemma InputSet_mutable_mapping_witness :
  InputSet___len__ ex_heap 4 = Ok 2 ∧
  InputSet___iter__ ex_heap 4 = Ok ["x"; "y"] ∧
  InputSet___getitem__ getattr ex_heap 4 "y" = Ok (VStr "3").
Proof.
  destruct (InputSet_mutable_mapping ex_heap 4 _ _ _
              (InputSet_at_mapping _ _ _ _ _ _ _ ex_heap_b))
    as (Hlen & Hiter & _ & Hget & _).
  split_and!; [exact Hlen|exact Hiter|].
  apply Hget. reflexivity.
Defined.

Lemma base_methods_raise_NotImplementedError_witness :
  InputSet_validate ex_heap 2
  = Raise (NotImplementedError ".validate() has not been implemented in InputSet").
Proof.
  exact (proj1 (proj2 (proj2
    (base_methods_raise_NotImplementedError InputSet_cls ex_heap 2 "" [] [] [] eq_refl)))).
Defined.

(** ** Paths and the file system *)

Lemma div_name (d : path) k : name (d / k)%path = k.
Proof. unfold name, div. by rewrite last_snoc. Qed.

Lemma div_parent (d : path) k : parent (d / k)%path = d.
Proof. unfold parent, div. apply removelast_last. Qed.

Lemma div_inj (d : path) k k' : (d / k)%path = (d / k')%path → k = k'.
Proof. unfold div. intros H. apply app_inj_1 in H as [_ H]; [|done]. by simplify_eq. Qed.

Lemma div_not_nil (d : path) k : (d / k)%path ≠ [].
Proof. unfold div. by destruct d. Qed.

Lemma div_ne_self (d : path) k : (d / k)%path ≠ d.
Proof.
  unfold div. intros H. apply (f_equal length) in H.
  rewrite length_app in H. simpl in H. lia.
Qed.

Lemma stat_div (fs : FS) (d : path) k : stat fs (d / k)%path = fs !! (d / k)%path.
Proof. unfold stat. pose proof (div_not_nil d k). by destruct (d / k)%path. Qed.

Lemma stat_insert_ne (fs : FS) (p q : path) n :
  p ≠ q → stat (<[q := n]> fs) p = stat fs p.
Proof. intros Hne. destruct p; [done|]. simpl. by rewrite lookup_insert_ne. Qed.

Lemma stat_delete_ne (fs : FS) (p q : path) :
  p ≠ q → stat (delete q fs) p = stat fs p.
Proof. intros Hne. destruct p; [done|]. simpl. by rewrite lookup_delete_ne. Qed.

Lemma Path_exists_true (fs : FS) p : Path_exists fs p = true ↔ is_Some (stat fs p).
Proof. unfold Path_exists. apply bool_decide_eq_true. Qed.

Lemma Path_exists_false (fs : FS) p : Path_exists fs p = false ↔ stat fs p = None.
Proof.
  unfold Path_exists. rewrite bool_decide_eq_false, <- eq_None_not_Some. done.
Qed.

(** Where every place on the way is free or a directory, no file is
    above. *)
Lemma file_above_false (fs : FS) (base : path) (rest : list string) :
  (∀ q : path, q `prefix_of` base ++ rest → stat fs q = None ∨ stat fs q = Some Dir) →
  file_above fs base rest = false.
Proof.
  revert base. induction rest as [|c rest IH]; intros base Hq; [reflexivity|].
  cbn [file_above].
  assert (file_above fs (base / c)%path rest = false) as Hrest.
  { apply IH. intros q Hpre. apply Hq. unfold div in Hpre.
    by rewrite <- app_assoc in Hpre. }
  assert ((base / c)%path `prefix_of` base ++ c :: rest) as Hp.
  { unfold div. exists rest. by rewrite <- app_assoc. }
  destruct (Hq _ Hp) as [-> | ->]; exact Hrest.
Qed.

Lemma joinpath_single (d : path) k : single_component k → joinpath d k = (d / k)%path.
Proof. intros (Habs & Hparts & _). unfold joinpath, div. by rewrite Habs, Hparts. Qed.

(** With a well-formed file system, a path that exists lies in a
    directory. *)
Lemma fs_wf_parent (fs : FS) (d : path) k :
  fs_wf fs → is_Some (stat fs (d / k)%path) → stat fs d = Some Dir.
Proof.
  intros Hwf [n Hn]. rewrite stat_div in Hn.
  apply Hwf in Hn. by rewrite div_parent in Hn.
Qed.

(** ** Writing files *)

Section Writing_facts.
Variable zopen_codec : string → codec.
Variable get_str : heap → loc → string.
Variable builtin_str : heap → val → string.

Local Abbreviation py_str' := (py_str get_str builtin_str).
Local Abbreviation zopen_write' := (zopen_write zopen_codec).
Local Abbreviation write_one' := (write_one zopen_codec get_str builtin_str).
Local Abbreviation written' := (written zopen_codec get_str builtin_str).
Local Abbreviation write_all' := (write_all zopen_codec get_str builtin_str).
Local Abbreviation write_input' := (InputSet_write_input zopen_codec get_str builtin_str).

Lemma zopen_write_Ok (fs : FS) (p : path) (text : string) :
  stat fs (parent p) = Some Dir → stat fs p ≠ Some Dir →
  zopen_write' p text fs = (Ok (), <[p := Text (zopen_codec (name p)) text]> fs).
Proof.
  intros Hpar Hp. unfold zopen_write, check_parent. rewrite Hpar.
  by destruct (stat fs p) as [[]|].
Qed.

(** C9: the string form of an InputFile is what [get_str] returns, and
    [write_file], given a path in an existing directory that is not
    itself a directory, leaves at that path a text file that holds
    exactly the string of [get_str], stored under the compression
    [zopen] selects from the file name; no other path changes. *)
Theorem InputFile_str_and_write_file (h : heap) (x : loc) (filename : path) (fs : FS) :
  isinstance h (VRef x) "InputFile" = true →
  stat fs (parent filename) = Some Dir →
  stat fs filename ≠ Some Dir →
  py_str' h (VRef x) = get_str h x ∧
  InputFile___str__ get_str h x = get_str h x ∧
  ∃ fs',
    InputFile_write_file zopen_codec get_str h x filename fs = (Ok (), fs') ∧
    fs' !! filename = Some (Text (zopen_codec (name filename)) (get_str h x)) ∧
    ∀ p, p ≠ filename → fs' !! p = fs !! p.
Proof.
  intros Hx Hpar Hp. split_and!.
  - unfold py_str. by rewrite Hx.
  - done.
  - eexists. split_and!.
    + unfold InputFile_write_file. by apply zopen_write_Ok.
    + by rewrite lookup_insert_eq.
    + intros p Hne. by rewrite lookup_insert_ne.
Qed.

(** Both branches of the loop body write the string form of the
    content. *)
Lemma write_one_Ok (h : heap) (d : path) (make_dir overwrite : bool)
    (k : string) (v : val) (fs : FS) :
  single_component k →
  stat fs d = Some Dir →
  match stat fs (d / k)%path with
  | None => True
  | Some Dir => False
  | Some _ => overwrite = true
  end →
  write_one' h d make_dir overwrite k v fs = (Ok (), <[(written' h d (k, v)).1 := (written' h d (k, v)).2]> fs).
Proof.
  intros Hsc Hd Hk. unfold write_one, written. rewrite (joinpath_single d k Hsc). simpl.
  erewrite bind_Ok.
  2:{ erewrite bind_Ok; [|apply read_Ok; reflexivity].
      unfold Path_exists. rewrite Hd. rewrite bool_decide_eq_true_2 by eauto.
      reflexivity. }
  erewrite bind_Ok; [|apply read_Ok; reflexivity].
  assert (∀ fs1 : FS, stat fs1 d = Some Dir → stat fs1 (d / k)%path ≠ Some Dir →
            match v with
            | VRef l => if isinstance h v "InputFile"
                        then InputFile_write_file zopen_codec get_str h l (d / k)%path
                        else zopen_write' (d / k)%path (py_str' h v)
            | _ => zopen_write' (d / k)%path (py_str' h v)
            end fs1
            = (Ok (), <[(d / k)%path := Text (zopen_codec k) (py_str' h v)]> fs1)) as Hw.
  { intros fs1 Hd1 Hk1.
    assert (zopen_write' (d / k)%path (py_str' h v) fs1
            = (Ok (), <[(d / k)%path := Text (zopen_codec k) (py_str' h v)]> fs1)) as Hz.
    { rewrite zopen_write_Ok by (by rewrite ?div_parent). by rewrite div_name. }
    destruct v as [| | | | |l]; try exact Hz.
    destruct (isinstance h (VRef l) "InputFile") eqn:Hi; [|exact Hz].
    unfold InputFile_write_file. rewrite <- Hz. unfold py_str.
    by rewrite Hi. }
  unfold Path_exists.
  destruct (stat fs (d / k)%path) as [n|] eqn:Hst.
  - destruct n; [done| |]; subst overwrite;
      rewrite bool_decide_eq_true_2 by eauto; simpl;
      (erewrite bind_Ok; [|unfold Path_touch; by rewrite Hst]);
      apply Hw; [done|by rewrite Hst|done|by rewrite Hst].
  - rewrite bool_decide_eq_false_2 by (by intros [? ?]). simpl.
    erewrite bind_Ok.
    2:{ unfold Path_touch, check_parent. by rewrite Hst, div_parent, Hd. }
    rewrite Hw.
    + by rewrite insert_insert_eq.
    + rewrite stat_insert_ne; [done|]. apply not_eq_sym, div_ne_self.
    + rewrite stat_div, lookup_insert_eq. done.
Qed.

Lemma write_one_exists (h : heap) (d : path) (make_dir : bool)
    (k : string) (v : val) (fs : FS) :
  single_component k →
  stat fs d = Some Dir →
  is_Some (stat fs (d / k)%path) →
  write_one' h d make_dir false k v fs = (Raise (FileExistsError k), fs).
Proof.
  intros Hsc Hd Hk. unfold write_one. rewrite (joinpath_single d k Hsc).
  erewrite bind_Ok.
  2:{ erewrite bind_Ok; [|apply read_Ok; reflexivity].
      unfold Path_exists. rewrite Hd. rewrite bool_decide_eq_true_2 by eauto.
      reflexivity. }
  erewrite bind_Ok; [|apply read_Ok; reflexivity].
  unfold Path_exists. by rewrite bool_decide_eq_true_2.
Qed.

Lemma write_all_cons (h : heap) (d : path) (kv : string * val)
    (inputs : PyDict.t val) (fs : FS) :
  write_all' h d (kv :: inputs) fs
  = write_all' h d inputs (<[(written' h d kv).1 := (written' h d kv).2]> fs).
Proof. done. Qed.

Lemma write_all_other (h : heap) (d : path) (inputs : PyDict.t val) (fs : FS) (p : path) :
  (∀ k, k ∈ PyDict.keys inputs → p ≠ (d / k)%path) →
  write_all' h d inputs fs !! p = fs !! p.
Proof.
  revert fs. induction inputs as [|[k v] inputs IH]; intros fs Hp; [done|].
  rewrite write_all_cons.
  rewrite IH by (intros k' Hk'; apply Hp; by right).
  rewrite lookup_insert_ne; [done|]. apply not_eq_sym, Hp. by left.
Qed.

Lemma write_all_lookup (h : heap) (d : path) (inputs : PyDict.t val) (fs : FS)
    (kv : string * val) :
  NoDup (PyDict.keys inputs) → kv ∈ inputs →
  write_all' h d inputs fs !! (written' h d kv).1 = Some (written' h d kv).2.
Proof.
  revert fs. induction inputs as [|[k v] inputs IH]; intros fs Hnd Hin.
  - by apply elem_of_nil in Hin.
  - unfold PyDict.keys in Hnd. simpl in Hnd. apply NoDup_cons in Hnd as [Hk Hnd].
    rewrite write_all_cons.
    apply elem_of_cons in Hin as [->|Hin].
    + rewrite write_all_other; [by rewrite lookup_insert_eq|].
      intros k' Hk' Heq%div_inj. simpl in Heq. by subst.
    + by apply IH.
Qed.

Lemma write_all_stat_dir (h : heap) (d : path) (inputs : PyDict.t val) (fs : FS) :
  stat (write_all' h d inputs fs) d = stat fs d.
Proof.
  destruct d as [|c d]; [done|]. simpl. apply write_all_other.
  intros k _. apply not_eq_sym, div_ne_self.
Qed.

(** The first loop, when every target is free or may be overwritten. *)
Lemma write_loop_Ok (h : heap) (d : path) (make_dir overwrite : bool)
    (inputs : PyDict.t val) (fs : FS) :
  (∀ k, k ∈ PyDict.keys inputs → single_component k) →
  stat fs d = Some Dir →
  NoDup (PyDict.keys inputs) →
  (∀ k, k ∈ PyDict.keys inputs →
     match stat fs (d / k)%path with
     | None => True
     | Some Dir => False
     | Some _ => overwrite = true
     end) →
  for_each inputs (λ kv, write_one' h d make_dir overwrite kv.1 kv.2) fs
  = (Ok (), write_all' h d inputs fs).
Proof.
  intros Hsc. revert fs.
  induction inputs as [|[k v] inputs IH]; intros fs Hd Hnd Hk; [done|].
  unfold PyDict.keys in Hnd. simpl in Hnd. apply NoDup_cons in Hnd as [Hnk Hnd].
  cbn [for_each].
  erewrite bind_Ok; [|apply write_one_Ok; [apply Hsc; by left|done|apply Hk; by left]].
  rewrite write_all_cons.
  apply IH; [intros k' Hk'; apply Hsc; by right| |done|].
  - rewrite stat_insert_ne; [done|]. apply not_eq_sym, div_ne_self.
  - intros k' Hk'. rewrite stat_insert_ne; [apply Hk; by right|].
    intros Heq%div_inj. by subst.
Qed.

(** The first loop with [overwrite=False], when the target of [f] is
    taken and those of the items before it are free: it stops at [f],
    with the items before it written'. *)
Lemma write_loop_stops (h : heap) (d : path) (make_dir : bool)
    (pre post : PyDict.t val) (f : string) (contents : val) (fs : FS) :
  (∀ k, k ∈ PyDict.keys (pre ++ (f, contents) :: post) → single_component k) →
  stat fs d = Some Dir →
  NoDup (PyDict.keys (pre ++ (f, contents) :: post)) →
  (∀ k, k ∈ PyDict.keys pre → stat fs (d / k)%path = None) →
  is_Some (stat fs (d / f)%path) →
  for_each (pre ++ (f, contents) :: post)
    (λ kv, write_one' h d make_dir false kv.1 kv.2) fs
  = (Raise (FileExistsError f), write_all' h d pre fs).
Proof.
  revert fs. induction pre as [|[k v] pre IH]; intros fs Hsc Hd Hnd Hpre Hf.
  - simpl. erewrite bind_Raise; [done|].
    apply write_one_exists; [apply Hsc; by left|done|done].
  - unfold PyDict.keys in Hnd. simpl in Hnd. apply NoDup_cons in Hnd as [Hnk Hnd].
    cbn [for_each app]. erewrite bind_Ok.
    2:{ apply write_one_Ok; [apply Hsc; by left|done|]. rewrite Hpre; [done|by left]. }
    rewrite write_all_cons.
    assert (f ≠ k) as Hfk.
    { intros ->. apply Hnk. rewrite fmap_app, elem_of_app. right. by left. }
    apply IH; [intros k' Hk'; apply Hsc; by right| |done| |].
    + rewrite stat_insert_ne; [done|]. apply not_eq_sym, div_ne_self.
    + intros k' Hk'. rewrite stat_insert_ne; [apply Hpre; by right|].
      intros Heq%div_inj. subst. apply Hnk.
      rewrite fmap_app, elem_of_app. by left.
    + rewrite stat_insert_ne; [done|]. intros Heq%div_inj. done.
Qed.

(** The first item of a list that satisfies a decidable property. *)
Lemma list_first_such {A} (P : A → Prop) `{!∀ x, Decision (P x)} (l : list A) :
  (∃ x, x ∈ l ∧ P x) →
  ∃ pre x post, l = pre ++ x :: post ∧ P x ∧ ∀ y, y ∈ pre → ¬ P y.
Proof.
  induction l as [|a l IH]; intros (x & Hin & HP).
  - by apply elem_of_nil in Hin.
  - destruct (decide (P a)) as [Ha|Ha].
    + exists [], a, l. split_and!; [done|done|]. by intros y ?%elem_of_nil.
    + destruct IH as (pre & y & post & -> & Hy & Hpre).
      { apply elem_of_cons in Hin as [->|Hin]; [done|eauto]. }
      exists (a :: pre), y, post. split_and!; [done|done|].
      intros z [->|Hz]%elem_of_cons; auto.
Qed.

Lemma lift_Ok {S A} (r : result A) (a : A) (s : S) : r = Ok a → lift r s = (Ok a, s).
Proof. by intros ->. Qed.

(** C10: for an InputSet whose mapping is empty, [write_input] without
    [zip_inputs] returns at once and leaves the file system as it was,
    whatever [make_dir] says and whether or not the directory exists: no
    file is written and no directory is created. *)
Theorem write_input_empty_is_noop (h : heap) (self : loc) (c : cls) (li : loc)
    (d : path) (make_dir overwrite : bool) (fs : FS) :
  InputSet_mapping h self c li [] →
  write_input' h self d make_dir overwrite false fs = (Ok (), fs).
Proof.
  intros Hat. unfold InputSet_write_input.
  erewrite bind_Ok; [|apply lift_Ok, (mapping_inputs _ _ _ _ _ Hat)].
  done.
Qed.


(** *** The archive *)

Lemma unlink_all_cons (d : path) (k : string) (ks : list string) (fs : FS) :
  unlink_all d (k :: ks) fs = unlink_all d ks (delete (d / k)%path fs).
Proof. done. Qed.

Lemma unlink_all_other (d : path) (ks : list string) (fs : FS) (p : path) :
  (∀ k, k ∈ ks → p ≠ (d / k)%path) → unlink_all d ks fs !! p = fs !! p.
Proof.
  revert fs. induction ks as [|k ks IH]; intros fs Hp; [done|].
  rewrite unlink_all_cons, IH by (intros k' Hk'; apply Hp; by right).
  rewrite lookup_delete_ne; [done|]. apply not_eq_sym, Hp. by left.
Qed.

Lemma unlink_all_gone (d : path) (ks : list string) (fs : FS) (k : string) :
  k ∈ ks → unlink_all d ks fs !! (d / k)%path = None.
Proof.
  revert fs. induction ks as [|k' ks IH]; intros fs Hin.
  - by apply elem_of_nil in Hin.
  - rewrite unlink_all_cons. destruct (decide (k ∈ ks)) as [Hks|Hks]; [by apply IH|].
    apply elem_of_cons in Hin as [->|Hin]; [|done].
    rewrite unlink_all_other; [by rewrite lookup_delete_eq|].
    intros k Hk Heq%div_inj. by subst.
Qed.

(** [mkdir] makes the directory and touches nothing that is not on the
    way to it. *)
Lemma makedirs_Ok (done rest : path) (fs fs' : FS) :
  makedirs done rest fs = (Ok (), fs') →
  stat fs done = Some Dir →
  stat fs' (done ++ rest) = Some Dir ∧
  ∀ p, ¬ p `prefix_of` (done ++ rest) → fs' !! p = fs !! p.
Proof.
  revert done fs. induction rest as [|c rest IH]; intros done fs Hmk Hdone.
  - simpl in Hmk. simplify_eq. by rewrite app_nil_r.
  - simpl in Hmk. rewrite (cons_middle c done rest), app_assoc.
    destruct (stat fs (done / c)%path) as [[| |]|] eqn:Hst; try done.
    + by apply IH.
    + apply IH in Hmk as [Hdir Hframe].
      * split; [done|]. intros p Hp. rewrite Hframe by done.
        apply lookup_insert_ne. intros <-. apply Hp. by apply prefix_app_r.
      * rewrite stat_div. by rewrite lookup_insert_eq.
Qed.

(** When the directory is made for the first item, the loop goes on as
    if it had been there. *)
Lemma write_one_mkdir (h : heap) (d : path) (overwrite : bool)
    (k : string) (v : val) (fs fs0 : FS) :
  stat fs d = None →
  Path_mkdir d fs = (Ok (), fs0) →
  stat fs0 d = Some Dir →
  write_one' h d true overwrite k v fs = write_one' h d true overwrite k v fs0.
Proof.
  intros Hnone Hmk Hdir. unfold write_one.
  erewrite (bind_Ok _ _ fs).
  2:{ erewrite bind_Ok; [|apply read_Ok; reflexivity].
      unfold Path_exists. rewrite Hnone.
      rewrite bool_decide_eq_false_2 by (by intros [? ?]). exact Hmk. }
  symmetry. erewrite (bind_Ok _ _ fs0); [done|].
  erewrite bind_Ok; [|apply read_Ok; reflexivity].
  unfold Path_exists. rewrite Hdir. by rewrite bool_decide_eq_true_2 by eauto.
Qed.

(** The second loop: every file that is there becomes a member of the
    archive and is removed. *)
Lemma zip_loop_Ok (h : heap) (d : path) (inputs : PyDict.t val)
    (fs : FS) (ms : list (path * node)) :
  (∀ k, k ∈ PyDict.keys inputs → single_component k) →
  NoDup (PyDict.keys inputs) →
  (∀ kv, kv ∈ inputs → fs !! (written' h d kv).1 = Some (written' h d kv).2) →
  for_each (PyDict.keys inputs) (zip_one d) (fs, ms)
  = (Ok (), (unlink_all d (PyDict.keys inputs) fs, ms ++ (written' h d <$> inputs))).
Proof.
  intros Hsc. revert fs ms.
  induction inputs as [|[k v] inputs IH]; intros fs ms Hnd Hfs.
  - simpl. by rewrite app_nil_r.
  - unfold PyDict.keys in Hnd. simpl in Hnd. apply NoDup_cons in Hnd as [Hnk Hnd].
    assert (fs !! (d / k)%path = Some (Text (zopen_codec k) (py_str' h v))) as Hk.
    { apply (Hfs (k, v)). by left. }
    change (PyDict.keys ((k, v) :: inputs)) with (k :: PyDict.keys inputs).
    cbn [for_each]. erewrite bind_Ok.
    2:{ unfold zip_one, except_FileNotFoundError.
        rewrite (joinpath_single d k) by (apply Hsc; by left).
        erewrite bind_Ok; [|unfold ZipFile_write; simpl; by rewrite stat_div, Hk].
        unfold on_fs, os_remove. simpl. rewrite stat_div, Hk. reflexivity. }
    rewrite IH; [|intros k' Hk'; apply Hsc; by right|done|].
    + by rewrite unlink_all_cons, fmap_cons, <- app_assoc.
    + intros kv Hkv. rewrite lookup_delete_ne; [apply Hfs; by right|].
      intros Heq%div_inj. apply Hnk. rewrite Heq.
      apply list_elem_of_fmap. by exists kv.
Qed.

(** A file that is missing when the archive is written is passed over:
    nothing is raised, the archive and the file system stay as they are. *)
Lemma zip_one_missing (d : path) (k : string) (s : zstate) :
  stat s.1 (joinpath d k) = None → zip_one d k s = (Ok (), s).
Proof.
  intros Hnone. unfold zip_one, except_FileNotFoundError.
  erewrite bind_Raise; [|unfold ZipFile_write; by rewrite Hnone]. done.
Qed.

Lemma div_not_prefix (d : path) (k : string) : ¬ (d / k)%path `prefix_of` d.
Proof.
  intros [x Hx]. apply (f_equal length) in Hx. unfold div in Hx.
  rewrite !length_app in Hx. simpl in Hx. lia.
Qed.

End Writing_facts.

(** ** The examples, written out *)

Lemma ex_heap_kwargs_b : InputSet_at ex_heap_kwargs 3 InputSet_cls 5 [] 4 [].
Proof.
  eexists. split_and!; try (vm_compute; reflexivity);
    apply (bool_decide_unpack _); vm_compute; reflexivity.
Qed.

Lemma ex_single_component (k : string) :
  k ∈ ["x"; "y"; "InputSet.zip"] → single_component k.
Proof.
  intros Hk. apply list_elem_of_In in Hk. simpl in Hk.
  destruct Hk as [<-|[<-|[<-|[]]]]; (split_and!; [reflexivity|reflexivity|discriminate]).
Qed.

Lemma ex_heap_b_single (k : string) :
  k ∈ PyDict.keys [("x", VStr "2"); ("y", VStr "3")] → single_component k.
Proof.
  intros Hk. apply ex_single_component. apply list_elem_of_In in Hk. simpl in Hk.
  apply list_elem_of_In. simpl. tauto.
Qed.

Lemma ex_fs_y_wf : fs_wf ex_fs_y.
Proof.
  intros p n. unfold ex_fs_y.
  rewrite lookup_insert_Some, lookup_singleton_Some.
  intros [[<- _]|[_ [<- _]]]; reflexivity.
Qed.

Lemma ex_fs_wf : fs_wf ex_fs.
Proof.
  intros p n. unfold ex_fs. rewrite lookup_singleton_Some.
  intros [<- _]. reflexivity.
Qed.

Lemma InputFile_str_and_write_file_witness :
  py_str ex_get_str ex_builtin_str ex_heap_file (VRef 0) = "rendered" ∧
  ∃ fs',
    InputFile_write_file ex_codec ex_get_str ex_heap_file 0 ["d"; "INCAR"] ex_fs
    = (Ok (), fs') ∧
    fs' !! ["d"; "INCAR"] = Some (Text Plain "rendered").
Proof.
  destruct (InputFile_str_and_write_file ex_codec ex_get_str ex_builtin_str
              ex_heap_file 0 ["d"; "INCAR"] ex_fs)
    as (Hstr & _ & fs' & Hw & Hfile & _).
  - reflexivity.
  - reflexivity.
  - vm_compute. discriminate.
  - split; [exact Hstr|]. exists fs'. split; [exact Hw|exact Hfile].
Defined.

Lemma write_input_empty_is_noop_witness :
  Path_exists (∅ : FS) ["d"] = false ∧
  InputSet_write_input ex_codec ex_get_str ex_builtin_str
    ex_heap_kwargs 3 ["d"] true true false ∅ = (Ok (), ∅).
Proof.
  split; [reflexivity|].
  exact (write_input_empty_is_noop ex_codec ex_get_str ex_builtin_str
           ex_heap_kwargs 3 _ _ ["d"] true true ∅
           (InputSet_at_mapping _ _ _ _ _ _ _ ex_heap_kwargs_b)).
Defined.





(** ** Deep copy *)

Lemma rename_mono (m m' : memo) (v : val) :
  covered m v → m ⊆ m' → rename m' v = rename m v ∧ covered m' v.
Proof.
  destruct v as [| | | | |l]; try done. simpl. intros [l' Hl] Hsub.
  rewrite Hl, (lookup_weaken _ _ _ _ Hl Hsub). eauto.
Qed.

Lemma rename_items_mono (m m' : memo) (d : PyDict.t val) :
  (∀ kv, kv ∈ d → covered m kv.2) → m ⊆ m' →
  rename_item m' <$> d = rename_item m <$> d.
Proof.
  intros Hcov Hsub. apply list_fmap_ext. intros i kv Hi.
  unfold rename_item. f_equal.
  apply rename_mono; [|done]. apply Hcov. by eapply list_elem_of_lookup_2.
Qed.

Lemma copy_of_mono (h0 h h' : heap) (m m' : memo) (l l' : loc) :
  copy_of h0 h m l l' → h' !! l' = h !! l' → m ⊆ m' → copy_of h0 h' m' l l'.
Proof.
  intros (o & Ho & Hl' & Hcov) Hsame Hsub. exists o. split_and!; [done| |].
  - by rewrite Hsame, Hl', (rename_items_mono m m').
  - intros kv Hkv. apply (rename_mono m m'); [by apply Hcov|done].
Qed.

Lemma memo_size_bound (m : memo) (n : nat) :
  (∀ l l', m !! l = Some l' → l < n) → size m ≤ n.
Proof.
  intros Hm. rewrite <- (size_dom (D := gset nat)).
  rewrite <- (size_set_seq (C := gset nat) 0 n).
  apply subseteq_size. intros l [l' Hl]%elem_of_dom.
  apply elem_of_set_seq. split; [lia|]. simpl. eauto.
Qed.

Lemma keys_rename_items (m : memo) (d : PyDict.t val) :
  PyDict.keys (rename_item m <$> d) = PyDict.keys d.
Proof. unfold PyDict.keys. rewrite <- list_fmap_compose. by apply list_fmap_ext. Qed.

Lemma get_rename_items (m : memo) (d : PyDict.t val) (k : string) :
  PyDict.get k (rename_item m <$> d) = rename m <$> PyDict.get k d.
Proof.
  induction d as [|[k' v] d IH]; [done|]. simpl. case_decide; [done|]. apply IH.
Qed.

Lemma for_each_ext {S A} (xs : list A) (f g : A → M S unit) (s : S) :
  (∀ x s', x ∈ xs → f x s' = g x s') → for_each xs f s = for_each xs g s.
Proof.
  revert s. induction xs as [|x xs IH]; intros s H; [done|].
  cbn [for_each]. unfold bind. rewrite (H x s) by left.
  destruct (g x s) as [[[]|e] s']; [|done].
  apply IH. intros y s'' Hy. apply H. by right.
Qed.

Lemma bind_congr {S A B} (c c' : M S A) (k : A → M S B) (s : S) :
  c s = c' s → bind c k s = bind c' k s.
Proof. unfold bind. by intros ->. Qed.

Lemma bind_congr_r {S A B} (c : M S A) (k k' : A → M S B) (s : S) :
  (∀ a s', k a s' = k' a s') → bind c k s = bind c k' s.
Proof. intros H. unfold bind. by destruct (c s) as [[a|e] s']. Qed.

(** For a name that is no data descriptor, [setattr] binds the name in
    [__dict__]. *)
Lemma setattr_plain (obj : loc) (name : string) (value : val) (h : heap) :
  name ∉ data_descriptors → setattr obj name value h = set_item obj name value h.
Proof.
  intros Hn. unfold setattr, data_descriptors in *.
  rewrite !not_elem_of_cons in Hn. destruct Hn as (H1 & H2 & H3 & _).
  by rewrite !decide_False by done.
Qed.

(** What the three copiers do first: the new object is made, empty, and
    recorded in the memo under the identity of the original; then its
    fields are copied.  For an InputSet the fields are bound by [setattr],
    which binds every name that is no data descriptor; the two others
    copy each key too, a string that [deepcopy] returns when it has the
    room for it. *)
Lemma InputSet_deepcopy_unfold (dc : val → M cstate val) (self : loc) (c : cls)
    (d : PyDict.t val) (h : heap) (m : memo) :
  h !! self = Some (Obj (KInst c) d) →
  (∀ k, k ∈ PyDict.keys d → k ∉ data_descriptors) →
  InputSet___deepcopy__ dc self (h, m)
  = (copy_fields dc (length h) d ;; ret (VRef (length h)))
      (h ++ [Obj (KInst c) []], <[self := length h]> m).
Proof.
  intros Hs Hkeys.
  assert ((h ++ [Obj (KInst c) []]) !! self = Some (Obj (KInst c) d)) as Hs'
    by (by apply lookup_app_l_Some).
  unfold InputSet___deepcopy__.
  erewrite bind_Ok; [|apply read_Ok; unfold type_of; simpl; by rewrite Hs].
  erewrite bind_Ok; [|reflexivity].
  erewrite bind_Ok; [|reflexivity].
  erewrite bind_Ok; [|apply read_Ok; unfold items_of; simpl; by rewrite Hs'].
  apply bind_congr, for_each_ext. intros [k v] s' Hin. simpl.
  apply bind_congr_r. intros v' s''. unfold on_heap.
  rewrite setattr_plain; [done|]. apply Hkeys, list_elem_of_fmap. by exists (k, v).
Qed.

Lemma deepcopy_dict_unfold (dc : val → M cstate val) (x : loc)
    (d : PyDict.t val) (h : heap) (m : memo) :
  h !! x = Some (Obj KDict d) →
  (∀ k s, dc (VStr k) s = (Ok (VStr k), s)) →
  deepcopy_dict dc x (h, m)
  = (copy_fields dc (length h) d ;; ret (VRef (length h)))
      (h ++ [Obj KDict []], <[x := length h]> m).
Proof.
  intros Hs Hkey.
  assert ((h ++ [Obj KDict []]) !! x = Some (Obj KDict d)) as Hs'
    by (by apply lookup_app_l_Some).
  unfold deepcopy_dict.
  erewrite bind_Ok; [|reflexivity].
  erewrite bind_Ok; [|reflexivity].
  erewrite bind_Ok; [|apply read_Ok; unfold items_of; simpl; by rewrite Hs'].
  apply bind_congr, for_each_ext. intros [k v] s' Hin. simpl.
  apply bind_congr_r. intros v' s''. by erewrite bind_Ok by apply Hkey.
Qed.

Lemma reconstruct_unfold (dc : val → M cstate val) (x : loc) (c : cls)
    (d : PyDict.t val) (h : heap) (m : memo) :
  h !! x = Some (Obj (KInst c) d) →
  (∀ k s, dc (VStr k) s = (Ok (VStr k), s)) →
  reconstruct dc c x (h, m)
  = (copy_fields dc (length h) d ;; ret (VRef (length h)))
      (h ++ [Obj (KInst c) []], <[x := length h]> m).
Proof.
  intros Hs Hkey.
  assert ((h ++ [Obj (KInst c) []]) !! x = Some (Obj (KInst c) d)) as Hs'
    by (by apply lookup_app_l_Some).
  unfold reconstruct.
  erewrite bind_Ok; [|reflexivity].
  erewrite bind_Ok; [|reflexivity].
  erewrite bind_Ok; [|apply read_Ok; unfold items_of; simpl; by rewrite Hs'].
  apply bind_congr, for_each_ext. intros [k v] s' Hin. simpl.
  apply bind_congr_r. intros v' s''. by erewrite bind_Ok by apply Hkey.
Qed.

(** With two frames, [deepcopy] returns a string as it is. *)
Lemma deepcopy_str (d : nat) (k : string) (s : cstate) :
  deepcopy (S (S d)) (VStr k) s = (Ok (VStr k), s).
Proof. reflexivity. Qed.

(** A miss in the memo sends [deepcopy] to the copier of the object,
    which calls [deepcopy] for the fields at most four frames further
    down. *)
Lemma deepcopy_miss (d : nat) (l : loc) (o : obj) (h : heap) (m : memo) :
  m !! l = None → h !! l = Some o →
  (∀ c, okind o = KInst c → derives c "InputSet" = true →
     ∀ k, k ∈ PyDict.keys (oitems o) → k ∉ data_descriptors) →
  ∃ d', 2 + d ≤ d' < 6 + d ∧
    deepcopy (6 + d) (VRef l) (h, m)
    = (copy_fields (deepcopy d') (length h) (oitems o) ;; ret (VRef (length h)))
        (h ++ [Obj (okind o) []], <[l := length h]> m).
Proof.
  intros Hm Hl Hdesc.
  change (6 + d) with (S (S (S (S (S (S d)))))).
  destruct o as [[|c] its]; cbn [okind oitems] in *.
  - exists (S (S (S (S d)))). split; [lia|].
    remember (S (S (S (S d)))) as d' eqn:Hd'.
    cbn [deepcopy]. simpl. rewrite Hm, Hl.
    apply deepcopy_dict_unfold; [done|]. intros k s. subst d'. apply deepcopy_str.
  - destruct (derives c "InputSet") eqn:Hc.
    + exists (S (S (S (S d)))). split; [lia|].
      remember (S (S (S (S d)))) as d' eqn:Hd'.
      cbn [deepcopy]. simpl. rewrite Hm, Hl, Hc.
      apply InputSet_deepcopy_unfold; [done|]. by apply (Hdesc c).
    + exists (S (S d)). split; [lia|].
      remember (S (S d)) as d' eqn:Hd'.
      cbn [deepcopy]. simpl. rewrite Hm, Hl, Hc.
      destruct d' as [|d'']; [discriminate Hd'|].
      apply reconstruct_unfold; [done|]. intros k s.
      injection Hd' as ->. apply deepcopy_str.
Qed.

Section Deepcopy_facts.
Variable h0 : heap.
Hypothesis h0_ok : heap_ok h0.
Hypothesis h0_plain : plain_attrs h0.

(** The loop that fills the copy [y] of the object [lself], with the
    fields [done] copied already and [todo] to go; [IH] is what is known
    of [deepcopy] at the depth the loop calls it with. *)
Lemma copy_fields_spec (d : nat)
    (IH : ∀ x s P, copying h0 P s → val_ok (length h0) x →
            4 * (length h0 - size s.2) + 2 ≤ d →
            ∃ y s', deepcopy d x s = (Ok y, s') ∧ copying h0 P s' ∧
                    extends s.1 s'.1 ∧ s.2 ⊆ s'.2 ∧
                    y = rename s'.2 x ∧ covered s'.2 x)
    (P : loc → Prop) (lself y : loc) (k : kind) (hbase : heap) :
  P lself → length h0 ≤ y → length hbase ≤ y →
  ∀ (todo done : PyDict.t val) (s : cstate),
    copying h0 P s →
    (∀ kv, kv ∈ todo → val_ok (length h0) kv.2) →
    4 * (length h0 - size s.2) + 2 ≤ d →
    extends hbase s.1 →
    s.2 !! lself = Some y →
    s.1 !! y = Some (Obj k (rename_item s.2 <$> done)) →
    (∀ kv, kv ∈ done → covered s.2 kv.2) →
    NoDup (PyDict.keys (done ++ todo)) →
    ∃ s', copy_fields (deepcopy d) y todo s = (Ok (), s') ∧
          copying h0 P s' ∧ extends hbase s'.1 ∧ s.2 ⊆ s'.2 ∧
          s'.1 !! y = Some (Obj k (rename_item s'.2 <$> (done ++ todo))) ∧
          (∀ kv, kv ∈ done ++ todo → covered s'.2 kv.2).
Proof.
  intros HP Hy0 Hyb todo.
  induction todo as [|[key v] todo IHt];
    intros done s Hinv Hvals Hmeas Hbase Hself Hy Hcov Hnd.
  - exists s. rewrite app_nil_r. split_and!; done.
  - destruct (IH v s P Hinv) as (v' & s1 & Hdc & Hinv1 & Hext1 & Hsub1 & Hv' & Hcov1);
      [apply (Hvals (key, v)); by left|done|].
    pose proof Hinv1 as (Hext01 & Hbound1 & Hdone1 & Hinj1).
    assert (s1.2 !! lself = Some y) as Hself1 by (by eapply lookup_weaken).
    assert (s1.1 !! y = Some (Obj k (rename_item s1.2 <$> done))) as Hy1.
    { rewrite (rename_items_mono s.2 s1.2) by done.
      exact (extends_lookup _ _ _ _ Hext1 Hy). }
    assert (y < length s1.1) as Hylt by (by eapply lookup_lt_Some).
    assert (key ∉ PyDict.keys done) as Hkey.
    { unfold PyDict.keys in Hnd. rewrite fmap_app in Hnd.
      apply NoDup_app in Hnd as (_ & Hdisj & _). intros Hin.
      apply (Hdisj key Hin). by left. }
    set (s2 := (<[y := Obj k (rename_item s1.2 <$> (done ++ [(key, v)]))]> s1.1, s1.2)).
    assert (on_heap (set_item y key v') s1 = (Ok (), s2)) as Hset.
    { unfold on_heap, set_item. rewrite Hy1. simpl. unfold s2. do 3 f_equal.
      rewrite PyDictFacts.set_new by (by rewrite keys_rename_items).
      rewrite fmap_app. simpl. unfold rename_item at 3. simpl. by rewrite Hv'. }
    assert (copying h0 P s2) as Hinv2.
    { unfold copying, s2. simpl. split_and!.
      - by apply extends_insert_new.
      - intros l l' Hl. rewrite length_insert. by apply Hbound1.
      - intros l l' Hl HnP. eapply copy_of_mono; [by apply Hdone1| |done].
        apply list_lookup_insert_ne. intros <-.
        apply HnP. by rewrite (Hinj1 l lself y).
      - done. }
    destruct (IHt (done ++ [(key, v)]) s2) as (s' & Hcf & Hinv' & Hbase' & Hsub' & Hy' & Hcov').
    + done.
    + intros kv Hkv. apply Hvals. by right.
    + unfold s2. simpl. pose proof (map_subseteq_size _ _ Hsub1). lia.
    + unfold s2. simpl. apply extends_insert_new; [|done].
      by eapply extends_trans.
    + done.
    + unfold s2. simpl. by apply list_lookup_insert_eq.
    + unfold s2. simpl. intros kv [Hkv| ->%list_elem_of_singleton]%elem_of_app.
      * apply (rename_mono s.2 s1.2); [by apply Hcov|done].
      * done.
    + by rewrite <- app_assoc.
    + exists s'. rewrite <- app_assoc in Hy', Hcov'. simpl in Hy', Hcov'.
      split_and!; [|done|done| |done|done].
      * unfold copy_fields. cbn [for_each]. fold (copy_fields (deepcopy d) y todo).
        erewrite bind_Ok; [exact Hcf|].
        erewrite bind_Ok; [exact Hset|exact Hdc].
      * etrans; [exact Hsub1|exact Hsub'].
Qed.

(** [deepcopy] with enough frames, four for each object that the memo
    does not hold yet and two more: it returns, the store it was given is
    a prefix of the one it leaves, the memo has only grown, and what it
    returns is the copy the memo records. *)
Lemma deepcopy_spec (d : nat) (x : val) (s : cstate) (P : loc → Prop) :
  copying h0 P s → val_ok (length h0) x →
  4 * (length h0 - size s.2) + 2 ≤ d →
  ∃ y s', deepcopy d x s = (Ok y, s') ∧ copying h0 P s' ∧
          extends s.1 s'.1 ∧ s.2 ⊆ s'.2 ∧
          y = rename s'.2 x ∧ covered s'.2 x.
Proof.
  revert x s P. induction d as [d IHd] using lt_wf_ind. intros x s P Hinv Hx Hmeas.
  destruct d as [|[|d2]]; [lia|lia|].
  destruct x as [| | | | |l];
    try (eexists _, s; split_and!; [reflexivity|done|apply extends_refl|done|done|done]).
  destruct s as [h m]. simpl in Hmeas, Hx.
  destruct (m !! l) as [y|] eqn:Hm.
  { exists (VRef y), (h, m). cbn [deepcopy]. simpl. rewrite Hm.
    split_and!; [done|done|apply extends_refl|done|done|eauto]. }
  destruct (lookup_lt_is_Some_2 h0 l Hx) as [o Ho].
  pose proof Hinv as (Hext0 & Hbound & Hdone & Hinj). simpl in Hext0, Hbound, Hdone, Hinj.
  assert (h !! l = Some o) as Hl by (by eapply extends_lookup).
  set (y := length h). set (h1 := h ++ [Obj (okind o) []]). set (m1 := <[l := y]> m).
  assert (length h0 ≤ y) as Hy0 by (by apply extends_length).
  assert (∀ l2 l2', m1 !! l2 = Some l2' →
            l2 < length h0 ∧ length h0 ≤ l2' < length h1) as Hbound1.
  { intros l2 l2'. unfold m1, h1. rewrite length_app. simpl.
    rewrite lookup_insert_Some. intros [[<- <-]|[_ Hl2]].
    - fold y. lia.
    - apply Hbound in Hl2. lia. }
  assert (size m < length h0) as Hsize.
  { assert (size m1 ≤ length h0) as Hle.
    { apply memo_size_bound. intros l2 l2' Hl2. by apply (Hbound1 l2 l2'). }
    unfold m1 in Hle. rewrite map_size_insert_None in Hle by done. lia. }
  assert (m ⊆ m1) as Hsub1 by (unfold m1; by apply insert_subseteq).
  destruct (deepcopy_miss (S (S d2) - 6) l o h m Hm Hl) as (d' & Hd' & Hmiss).
  { intros c Hk Hc. destruct o as [k its]. simpl in Hk. subst k. by apply (h0_plain l c its). }
  replace (6 + (S (S d2) - 6)) with (S (S d2)) in Hmiss, Hd' by lia.
  rewrite Hmiss. clear Hmiss.
  assert (copying h0 (λ x, P x ∨ x = l) (h1, m1)) as Hinv1.
  { unfold copying. simpl. split_and!.
    - eapply extends_trans; [done|apply extends_app].
    - done.
    - intros l2 l2' Hl2 HnP. unfold m1 in Hl2.
      apply lookup_insert_Some in Hl2 as [[<- _]|[Hne Hl2]]; [tauto|].
      eapply copy_of_mono; [apply Hdone; [done|tauto]| |done].
      unfold h1. apply lookup_app_l. apply Hbound in Hl2. lia.
    - intros l2 l3 l'. unfold m1. rewrite !lookup_insert_Some.
      intros [[<- <-]|[Hne2 Hl2]] [[<- Heq]|[Hne3 Hl3]]; try done.
      + apply Hbound in Hl3. unfold y in Hl3. lia.
      + subst l'. apply Hbound in Hl2. unfold y in Hl2. lia.
      + by apply (Hinj l2 l3 l'). }
  destruct (copy_fields_spec d' (IHd d' (proj2 Hd')) (λ x, P x ∨ x = l) l y (okind o) h
              (or_intror eq_refl) Hy0 (Nat.le_refl _) (oitems o) [] (h1, m1))
    as (s' & Hcf & Hinv' & Hext' & Hsub' & Hy & Hcov').
  - done.
  - intros kv Hkv. by apply (proj2 (h0_ok l o Ho)).
  - simpl. unfold m1. rewrite map_size_insert_None by done. lia.
  - apply extends_app.
  - simpl. unfold m1. by rewrite lookup_insert_eq.
  - simpl. unfold h1, y. by rewrite lookup_app_r, Nat.sub_diag by lia.
  - by intros kv ?%elem_of_nil.
  - apply (h0_ok l o Ho).
  - simpl in Hsub', Hy, Hcov'.
    assert (s'.2 !! l = Some y) as Hly.
    { eapply lookup_weaken; [|exact Hsub']. unfold m1. by rewrite lookup_insert_eq. }
    pose proof Hinv' as (Hext0' & Hboundx & Hdone' & Hinj').
    exists (VRef y), s'. split_and!.
    + erewrite bind_Ok; [|exact Hcf]. reflexivity.
    + split_and!; [done|done| |done].
      intros l2 l2' Hl2 HnP. destruct (decide (l2 = l)) as [->|Hne].
      * rewrite Hly in Hl2. simplify_eq. by exists o.
      * apply Hdone'; [done|tauto].
    + done.
    + by etrans.
    + simpl. by rewrite Hly.
    + simpl. eauto.
Qed.
End Deepcopy_facts.

Lemma get_Some_elem_of {V} (d : PyDict.t V) (k : string) (v : V) :
  PyDict.get k d = Some v → (k, v) ∈ d.
Proof.
  induction d as [|[k' v'] d IH]; simpl; [done|].
  case_decide; [intros [= ->]; subst; by left|]. intros ?. right. auto.
Qed.


Lemma ex_heap_cyclic_ok : heap_ok ex_heap_cyclic.
Proof.
  intros l o Hl. destruct l as [|[|[|l]]]; simpl in Hl; simplify_eq; simpl.
  all: split; [apply (bool_decide_unpack _); vm_compute; reflexivity|].
  all: intros kv Hkv; apply list_elem_of_In in Hkv; simpl in Hkv.
  all: repeat (destruct Hkv as [<-|Hkv]; [simpl; lia|]); destruct Hkv.
Qed.

Lemma ex_heap_cyclic_at :
  InputSet_at ex_heap_cyclic 1 InputSet_cls 0 [("me", VRef 1); ("x", VStr "1")] 2 [].
Proof.
  eexists. split_and!; try (vm_compute; reflexivity);
    apply (bool_decide_unpack _); vm_compute; reflexivity.
Qed.

Lemma ex_heap_cyclic_plain : plain_attrs ex_heap_cyclic.
Proof.
  intros l c d Hl _ k Hk. destruct l as [|[|[|l]]]; simpl in Hl; simplify_eq.
  apply (bool_decide_unpack _). apply list_elem_of_In in Hk. simpl in Hk.
  destruct Hk as [<-|[<-|[<-|[]]]]; vm_compute; reflexivity.
Qed.



(** ** Shallow copy *)

(** What [__copy__] leaves in the store: one new instance of the class of
    [self], whose [__dict__] has the items of that of [self]. *)
Lemma InputSet_copy_spec h self c dict :
  h !! self = Some (Obj (KInst c) dict) →
  PyDict.wf dict →
  (∀ k, k ∈ PyDict.keys dict → k ∉ data_descriptors) →
  InputSet___copy__ self h = (Ok (VRef (length h)), h ++ [Obj (KInst c) dict]).
Proof.
  intros Hs Hwf Hkeys. unfold InputSet___copy__.
  erewrite bind_Ok; [|apply read_Ok; unfold type_of; by rewrite Hs].
  erewrite bind_Ok; [|reflexivity].
  erewrite bind_Ok.
  2:{ apply read_Ok. unfold items_of. by rewrite (lookup_app_l_Some _ _ _ _ Hs). }
  erewrite bind_Ok.
  2:{ rewrite (for_each_ext _ _ (λ kv, set_item (length h) kv.1 kv.2)).
      - apply for_each_set_item. by rewrite lookup_app_r, Nat.sub_diag by lia.
      - intros [k v] s' Hin. simpl. apply setattr_plain.
        apply Hkeys, list_elem_of_fmap. by exists (k, v). }
  unfold ret. rewrite PyDictFacts.update_nil_wf by done.
  by rewrite insert_app_r_alt, Nat.sub_diag by lia.
Qed.

(** The shallow copy of an InputSet that has no attribute named like a
    data descriptor of its type ([__class__], [__dict__], [__weakref__])
    is a new instance of the same class whose attributes are those of the
    original, the same objects: the two collections share one file
    mapping, so that an item stored through either of them is read
    through the other, while an attribute bound on the copy, by [setattr]
    under a name that is no data descriptor, leaves the original as it
    was. *)
Theorem InputSet_copy_shares_inputs h self c li inputs dict :
  InputSet_mapping h self c li inputs →
  h !! self = Some (Obj (KInst c) dict) →
  PyDict.wf dict →
  (∀ k, k ∈ PyDict.keys dict → k ∉ data_descriptors) →
  ∃ r h',
    InputSet___copy__ self h = (Ok (VRef r), h') ∧
    r ≠ self ∧ extends h h' ∧
    h' !! r = Some (Obj (KInst c) dict) ∧
    InputSet_mapping h' r c li inputs ∧
    (∀ key v, ∃ h'',
       InputSet___setitem__ r key v h' = (Ok (), h'') ∧
       InputSet___getitem__ getattr h'' self key = Ok v) ∧
    (∀ key v, ∃ h'',
       InputSet___setitem__ self key v h' = (Ok (), h'') ∧
       InputSet___getitem__ getattr h'' r key = Ok v) ∧
    (∀ name v, name ∉ data_descriptors → ∃ h'',
       setattr r name v h' = (Ok (), h'') ∧ h'' !! self = h !! self).
Proof.
  intros Hat Hs Hwf Hkeys.
  pose proof Hat as (dict' & Hs' & Hc & Hi & Hli & Hwi).
  assert (dict' = dict) as -> by congruence.
  assert (self < length h) as Hlt by (by eapply lookup_lt_Some).
  set (h' := h ++ [Obj (KInst c) dict]).
  assert (extends h h') as Hext by apply extends_app.
  assert (h' !! length h = Some (Obj (KInst c) dict)) as Hr.
  { unfold h'. by rewrite lookup_app_r, Nat.sub_diag by lia. }
  assert (InputSet_mapping h' (length h) c li inputs) as Hatr.
  { exists dict. split_and!; [done|done|done|by eapply extends_lookup|done]. }
  assert (InputSet_mapping h' self c li inputs) as Hats.
  { exists dict. split_and!; [by eapply extends_lookup|done|done|by eapply extends_lookup|done]. }
  assert (∀ x key v, InputSet_mapping h' x c li inputs →
            InputSet___setitem__ x key v h'
            = (Ok (), <[li := Obj KDict (PyDict.set key v inputs)]> h')) as Hset.
  { intros x key v Hx. unfold InputSet___setitem__.
    erewrite bind_Ok; [|apply read_Ok, (mapping_inputs _ _ _ _ _ Hx)].
    unfold store_subscript. by rewrite (extends_lookup _ _ _ _ Hext Hli). }
  assert (∀ x key v, InputSet_mapping h' x c li inputs →
            InputSet___getitem__ getattr
              (<[li := Obj KDict (PyDict.set key v inputs)]> h') x key = Ok v) as Hget.
  { intros x key v Hx.
    destruct (mapping_store _ _ _ _ _ (PyDict.set key v inputs) Hx) as [Hin Hg];
      [by apply PyDictFacts.wf_set|].
    unfold InputSet___getitem__, subscript. rewrite Hg.
    unfold self_inputs, unpack in Hin. rewrite Hg in Hin.
    destruct (as_dict _ (VRef li)); simplify_eq.
    by rewrite PyDictFacts.get_set_eq. }
  exists (length h), h'. split_and!; [by apply InputSet_copy_spec|lia|done|done|done| | |].
  - intros key v. eexists. split; [by apply Hset|by apply Hget].
  - intros key v. eexists. split; [by apply Hset|by apply Hget].
  - intros name v Hname. eexists. split.
    + rewrite setattr_plain by done. unfold set_item. rewrite Hr. reflexivity.
    + rewrite list_lookup_insert_ne by lia. by rewrite (extends_lookup _ _ _ _ Hext Hs).
Qed.

Lemma ex_heap_a_dict :
  ex_heap !! 2 = Some (Obj (KInst InputSet_cls)
                         [("inputs", VRef 0); ("_kwargs", VRef 3); ("foo", VStr "bar")]).
Proof. reflexivity. Qed.

Lemma InputSet_copy_shares_inputs_witness :
  ∃ r h', InputSet___copy__ 2 ex_heap = (Ok (VRef r), h') ∧ r ≠ 2 ∧
          getattr h' r "inputs" = getattr h' 2 "inputs".
Proof.
  destruct (InputSet_copy_shares_inputs ex_heap 2 _ _ _ _
              (InputSet_at_mapping _ _ _ _ _ _ _ ex_heap_a) ex_heap_a_dict)
    as (r & h' & Hcopy & Hne & Hext & _ & Hat & _).
  - apply (bool_decide_unpack _). vm_compute. reflexivity.
  - intros k Hk. apply (bool_decide_unpack _). apply list_elem_of_In in Hk. simpl in Hk.
    destruct Hk as [<-|[<-|[<-|[]]]]; vm_compute; reflexivity.
  - exists r, h'. split_and!; [exact Hcopy|exact Hne|].
    rewrite (proj1 (mapping_inputs _ _ _ _ _ Hat)).
    symmetry. eapply getattr_dict.
    + eapply extends_lookup; [exact Hext|exact ex_heap_a_dict].
    + reflexivity.
Defined.

(** ** Attribute lookup before [__init__] has run *)

(** On an instance whose [__dict__] has no [_kwargs], as [cls.__new__(cls)]
    leaves it in [__copy__] and [__deepcopy__], [__getattr__], which the
    interpreter calls for a name that neither the instance nor its class
    has, never answers, whatever the name: it reads [self._kwargs],
    which enters [__getattr__] again, until the stack of the interpreter
    is used up, whatever its size; the call raises [RecursionError], not
    [AttributeError]. *)
Theorem InputSet_getattr_without_kwargs h self c dict name :
  h !! self = Some (Obj (KInst c) dict) →
  derives c "InputSet" = true →
  PyDict.get "_kwargs" dict = None →
  InputSet___getattr__ getattr h self name = Raise RecursionError ∧
  ∀ depth, InputSet___getattr__ (getattr_rec depth) h self name = Raise RecursionError.
Proof.
  intros Hs Hc Hk.
  assert (∀ depth, getattr_rec depth h self "_kwargs" = Raise RecursionError) as Hkw.
  { induction depth as [|depth IH]; [done|].
    cbn [getattr_rec]. rewrite Hs, Hk, Hc. unfold InputSet___getattr__. by rewrite IH. }
  assert (∀ depth, InputSet___getattr__ (getattr_rec depth) h self name
                   = Raise RecursionError) as Hall.
  { intros depth. unfold InputSet___getattr__. by rewrite Hkw. }
  split; [apply Hall|done].
Qed.

Lemma InputSet_getattr_without_kwargs_witness :
  InputSet___getattr__ getattr ex_heap_new 0 "foo" = Raise RecursionError.
Proof.
  apply (InputSet_getattr_without_kwargs ex_heap_new 0 InputSet_cls [] "foo");
    reflexivity.
Defined.

(** ** Construction, continued *)

(** [InputSet(d, **kwargs)] keeps a dict [d] that has items as its
    mapping, the very object and not a copy of it, so that an item stored
    in the collection is stored in [d]; for an empty [d], [inputs or {}]
    gives the collection a new dict of its own, and [d] stays empty. *)
Theorem InputSet_init_keeps_nonempty_dict c (l : loc) (d kwargs : PyDict.t val) (h : heap) :
  h !! l = Some (Obj KDict d) →
  PyDict.wf d → PyDict.wf kwargs →
  "self" ∉ PyDict.keys kwargs → "inputs" ∉ PyDict.keys kwargs →
  ∃ self h' li,
    InputSet_call c (VRef l) kwargs h = (Ok self, h') ∧
    extends h h' ∧
    getattr h' self "inputs" = Ok (VRef li) ∧
    as_dict h' (VRef li) = Some d ∧
    (d ≠ [] → li = l) ∧
    (d = [] → length h ≤ li) ∧
    ∀ key v, ∃ h'',
      InputSet___setitem__ self key v h' = (Ok (), h'') ∧
      as_dict h'' (VRef li) = Some (PyDict.set key v d) ∧
      as_dict h'' (VRef l) = Some (if decide (d = []) then [] else PyDict.set key v d).
Proof.
  intros Hl Hwd Hwk H1 H2.
  pose proof (InputSet_call_spec c (VRef l) kwargs h H1 H2) as Hcall.
  cbv zeta in Hcall.
  assert (l < length h) as Hlt by (by eapply lookup_lt_Some).
  assert (truthy (h ++ [Obj (KInst c) []; Obj KDict kwargs]) (VRef l)
          = negb (bool_decide (d = []))) as Htr.
  { unfold truthy. by rewrite lookup_app_l, Hl by done. }
  rewrite Htr in Hcall.
  set (li := if decide (d = []) then S (S (length h)) else l).
  set (h' := h ++ [Obj (KInst c)
                     (PyDict.update [("inputs", VRef li); ("_kwargs", VRef (S (length h)))] kwargs);
                   Obj KDict kwargs] ++ (if decide (d = []) then [Obj KDict []] else [])).
  assert (InputSet_call c (VRef l) kwargs h = (Ok (length h), h')) as Hcall'.
  { rewrite Hcall. unfold h', li. by case_decide; case_bool_decide. }
  assert (extends h h') as Hext by apply extends_app.
  assert (getattr h' (length h) "inputs" = Ok (VRef li)) as Hg.
  { eapply getattr_dict.
    - unfold h'. by rewrite lookup_app_r, Nat.sub_diag by lia.
    - rewrite PyDictFacts.get_update by done.
      by apply PyDictFacts.get_None in H2 as ->. }
  assert (h' !! li = Some (Obj KDict d)) as Hli.
  { unfold li, h'. case_decide as Hd.
    - subst d. rewrite lookup_app_r by lia.
      by replace (S (S (length h)) - length h) with 2 by lia.
    - by apply lookup_app_l_Some. }
  exists (length h), h', li. split_and!; [done|done|done| | | |].
  - unfold as_dict. by rewrite Hli.
  - intros Hd. unfold li. by rewrite decide_False.
  - intros Hd. unfold li. rewrite decide_True by done. lia.
  - intros key v. eexists. split_and!.
    + unfold InputSet___setitem__.
      erewrite bind_Ok; [|by apply read_Ok].
      unfold store_subscript. rewrite Hli. reflexivity.
    + unfold as_dict. rewrite list_lookup_insert_eq; [done|]. by eapply lookup_lt_Some.
    + unfold as_dict. unfold li. case_decide as Hd.
      * rewrite list_lookup_insert_ne by lia.
        rewrite (extends_lookup _ _ _ _ Hext Hl). by subst d.
      * rewrite list_lookup_insert_eq; [done|]. unfold h'. rewrite length_app. lia.
Qed.

Lemma InputSet_init_keeps_nonempty_dict_witness :
  ∃ self h' h'',
    InputSet_call InputSet_cls (VRef 0) [] [Obj KDict [("x", VStr "1")]] = (Ok self, h') ∧
    InputSet___setitem__ self "y" (VStr "2") h' = (Ok (), h'') ∧
    as_dict h'' (VRef 0) = Some [("x", VStr "1"); ("y", VStr "2")].
Proof.
  destruct (InputSet_init_keeps_nonempty_dict InputSet_cls 0 [("x", VStr "1")] []
              [Obj KDict [("x", VStr "1")]] eq_refl)
    as (self & h' & li & Hcall & _ & _ & _ & _ & _ & Hset).
  - apply (bool_decide_unpack _). vm_compute. reflexivity.
  - apply NoDup_nil_2.
  - apply not_elem_of_nil.
  - apply not_elem_of_nil.
  - destruct (Hset "y" (VStr "2")) as (h'' & Hs & _ & Hd).
    exists self, h', h''. split_and!; [exact Hcall|exact Hs|exact Hd].
Defined.

(** After [InputSet(inputs, **kwargs)], with [None] or a dict for
    [inputs], every keyword argument whose name is no data descriptor of
    the type ([__class__], [__dict__], [__weakref__]) is an attribute of
    the new instance, with its value, and the attribute [_kwargs] is a dict
    that holds all the keyword arguments, unless one of them is itself
    named [_kwargs] and takes its place. *)
Theorem InputSet_init_kwargs_are_attributes c (inputs : val) (kwargs : PyDict.t val) (h : heap) :
  inputs = VNone ∨ is_dict h inputs = true →
  "self" ∉ PyDict.keys kwargs → "inputs" ∉ PyDict.keys kwargs →
  PyDict.wf kwargs →
  ∃ self h' lk,
    InputSet_call c inputs kwargs h = (Ok self, h') ∧
    extends h h' ∧ length h ≤ lk ∧
    type_of h' self = Some c ∧
    (∀ key v, key ∉ data_descriptors → PyDict.get key kwargs = Some v →
       getattr h' self key = Ok v) ∧
    as_dict h' (VRef lk) = Some kwargs ∧
    (PyDict.get "_kwargs" kwargs = None → getattr h' self "_kwargs" = Ok (VRef lk)).
Proof.
  intros _ H1 H2 Hwf.
  pose proof (InputSet_call_spec c inputs kwargs h H1 H2) as Hcall.
  cbv zeta in Hcall.
  set (h' := h ++ _) in Hcall.
  assert (∃ dict, h' !! length h = Some (Obj (KInst c)
            (PyDict.update dict kwargs)) ∧ PyDict.get "_kwargs" dict = Some (VRef (S (length h))))
    as (dict & Hs & Hkw).
  { eexists. split.
    - unfold h'. by rewrite lookup_app_r, Nat.sub_diag by lia.
    - reflexivity. }
  exists (length h), h', (S (length h)).
  split_and!; [done|apply extends_app|lia| | | |].
  - unfold type_of. by rewrite Hs.
  - intros key v _ Hv. eapply getattr_dict; [exact Hs|].
    by rewrite PyDictFacts.get_update, Hv.
  - unfold as_dict, h'. rewrite lookup_app_r by lia.
    by replace (S (length h) - length h) with 1 by lia.
  - intros Hnone. eapply getattr_dict; [exact Hs|].
    by rewrite PyDictFacts.get_update, Hnone.
Qed.

Lemma InputSet_init_kwargs_are_attributes_witness :
  ∃ self h',
    InputSet_call InputSet_cls VNone [("foo", VStr "bar")] [] = (Ok self, h') ∧
    getattr h' self "foo" = Ok (VStr "bar").
Proof.
  destruct (InputSet_init_kwargs_are_attributes InputSet_cls VNone [("foo", VStr "bar")] [])
    as (self & h' & lk & Hcall & _ & _ & _ & Hattr & _).
  - left. reflexivity.
  - apply (bool_decide_unpack _). vm_compute. reflexivity.
  - apply (bool_decide_unpack _). vm_compute. reflexivity.
  - apply (bool_decide_unpack _). vm_compute. reflexivity.
  - exists self, h'. split; [exact Hcall|]. apply Hattr; [|reflexivity].
    apply (bool_decide_unpack _). vm_compute. reflexivity.
Defined.

Lemma string_prefix_app (a b c : string) :
  String.prefix b c = true → String.prefix (a +:+ b) (a +:+ c) = true.
Proof.
  intros H. induction a as [|x a IH]; [done|].
  simpl. by destruct (Ascii.ascii_dec x x).
Qed.

Lemma string_prefix_app_r (a b : string) : String.prefix a (a +:+ b) = true.
Proof.
  induction a as [|x a IH]; [by destruct b|].
  simpl. by destruct (Ascii.ascii_dec x x).
Qed.

(** [__getattr__], which the interpreter calls for a name that neither
    the instance nor its class has, raises [AttributeError] for every
    name that is not among the keyword arguments the instance was made
    with; the message is that of the interpreter for a missing attribute,
    with the name of the class of the instance and the [repr] of the
    name, so it starts with the name of the class in quotes. *)
Theorem InputSet_getattr_unknown_name h self c li inputs lk kwargs key :
  InputSet_at h self c li inputs lk kwargs →
  key ∉ PyDict.keys kwargs →
  ∃ msg,
    InputSet___getattr__ getattr h self key = Raise (AttributeError msg) ∧
    msg = "'" +:+ cname c +:+ "' object has no attribute " +:+ py_repr key ∧
    String.prefix ("'" +:+ cname c +:+ "' object has no attribute ") msg = true.
Proof.
  intros Hat Hnk. exists (qualname_msg c key). split_and!.
  - by eapply InputSet_getattr_unknown.
  - reflexivity.
  - unfold qualname_msg. apply (string_prefix_app "'").
    apply string_prefix_app. apply string_prefix_app_r.
Qed.

Lemma InputSet_getattr_unknown_name_witness :
  InputSet___getattr__ getattr ex_heap 2 "baz"
  = Raise (AttributeError "'InputSet' object has no attribute 'baz'").
Proof.
  destruct (InputSet_getattr_unknown_name ex_heap 2 _ _ _ _ _ "baz" ex_heap_a)
    as (msg & Hg & Hmsg & _).
  - intros Hin%list_elem_of_singleton. discriminate.
  - rewrite Hg, Hmsg. reflexivity.
Defined.

(** ** The container protocol, continued *)

Lemma PyDict_del_set_new {V} (d : PyDict.t V) (k : string) (v : V) :
  k ∉ PyDict.keys d → PyDict.del k (PyDict.set k v d) = Some d.
Proof.
  induction d as [|[k' v'] d IH]; simpl.
  - intros _. by rewrite decide_True.
  - rewrite not_elem_of_cons. intros [Hne Hd].
    rewrite decide_False by done. simpl. rewrite decide_False by done.
    by rewrite IH.
Qed.

Lemma PyDict_del_length {V} (d d' : PyDict.t V) (k : string) :
  PyDict.del k d = Some d' → length d = S (length d').
Proof.
  revert d'. induction d as [|[k0 v0] d IH]; intros d' Hdel; simpl in *; [done|].
  case_decide; simplify_eq; [done|].
  apply fmap_Some in Hdel as (d1 & Hd1 & ->). simpl. by rewrite (IH d1).
Qed.

(** For a file name that the collection does not hold, [c[key]] and
    [del c[key]] raise [KeyError] with that name, and [c.get(key)] returns
    [None]; the collection is left as it was. *)
Theorem InputSet_missing_key h self c li inputs key :
  InputSet_mapping h self c li inputs →
  key ∉ PyDict.keys inputs →
  InputSet___getitem__ getattr h self key = Raise (KeyError key) ∧
  InputSet___delitem__ self key h = (Raise (KeyError key), h) ∧
  Mapping_get getattr h self key = Ok VNone.
Proof.
  intros Hat Hkey. pose proof Hat as (dict & Hs & Hc & Hi & Hli & Hwi).
  destruct (mapping_inputs _ _ _ _ _ Hat) as [Hg _].
  assert (InputSet___getitem__ getattr h self key = Raise (KeyError key)) as Hget.
  { unfold InputSet___getitem__, subscript, as_dict. rewrite Hg, Hli.
    by apply PyDictFacts.get_None in Hkey as ->. }
  split_and!; [done| |].
  - unfold InputSet___delitem__.
    erewrite bind_Ok; [|by apply read_Ok].
    unfold del_subscript. rewrite Hli.
    by apply PyDictFacts.del_None in Hkey as ->.
  - unfold Mapping_get. by rewrite Hget.
Qed.

Lemma InputSet_missing_key_witness :
  InputSet___getitem__ getattr ex_heap 4 "z" = Raise (KeyError "z") ∧
  InputSet___delitem__ 4 "z" ex_heap = (Raise (KeyError "z"), ex_heap).
Proof.
  destruct (InputSet_missing_key ex_heap 4 _ _ _ "z"
              (InputSet_at_mapping _ _ _ _ _ _ _ ex_heap_b)) as (Hget & Hdel & _).
  - intros Hin. apply list_elem_of_In in Hin. simpl in Hin.
    destruct Hin as [?|[?|[]]]; discriminate.
  - split; [exact Hget|exact Hdel].
Defined.

(** [len] follows the updates: storing under a new file name makes the
    collection one longer, storing under a name it holds leaves its length,
    and deleting a name it holds makes it one shorter. *)
Theorem InputSet_len_after_update h self c li inputs key v :
  InputSet_mapping h self c li inputs →
  InputSet___len__ h self = Ok (length inputs) ∧
  (∃ h', InputSet___setitem__ self key v h = (Ok (), h') ∧
         InputSet___len__ h' self
         = Ok (if decide (key ∈ PyDict.keys inputs) then length inputs
               else S (length inputs))) ∧
  (key ∈ PyDict.keys inputs →
   ∃ h', InputSet___delitem__ self key h = (Ok (), h') ∧
         InputSet___len__ h' self = Ok (length inputs - 1)).
Proof.
  intros Hat. pose proof Hat as (dict & Hs & Hc & Hi & Hli & Hwi).
  destruct (mapping_inputs _ _ _ _ _ Hat) as [Hg _].
  assert (∀ inputs', PyDict.wf inputs' →
            InputSet___len__ (<[li := Obj KDict inputs']> h) self = Ok (length inputs')) as Hlen.
  { intros inputs' Hw.
    destruct (mapping_store _ _ _ _ _ inputs' Hat Hw) as [Hin Hg'].
    unfold InputSet___len__. rewrite Hg'.
    unfold self_inputs in Hin. rewrite Hg' in Hin. by rewrite Hin. }
  split_and!.
  - unfold InputSet___len__, unpack, as_dict. by rewrite Hg, Hli.
  - eexists. split.
    + unfold InputSet___setitem__.
      erewrite bind_Ok; [|by apply read_Ok].
      unfold store_subscript. rewrite Hli. reflexivity.
    + rewrite Hlen by (by apply PyDictFacts.wf_set). f_equal.
      pose proof (PyDictFacts.keys_set inputs key v) as Hk.
      apply (f_equal length) in Hk. unfold PyDict.keys in Hk at 1.
      rewrite length_fmap in Hk. rewrite Hk.
      case_decide; unfold PyDict.keys; rewrite ?length_app, !length_fmap; simpl; lia.
  - intros Hin.
    destruct (PyDict.del key inputs) as [inputs'|] eqn:Hdel;
      [|by apply PyDictFacts.del_None in Hdel].
    destruct (PyDictFacts.del_Some _ _ _ Hwi Hdel) as (_ & _ & Hkeys).
    assert (PyDict.wf inputs') as Hw'.
    { unfold PyDict.wf. rewrite Hkeys. by apply NoDup_filter. }
    exists (<[li := Obj KDict inputs']> h). split.
    + unfold InputSet___delitem__.
      erewrite bind_Ok; [|by apply read_Ok].
      unfold del_subscript. by rewrite Hli, Hdel.
    + rewrite Hlen by done. f_equal. rewrite (PyDict_del_length _ _ _ Hdel). lia.
Qed.

Lemma InputSet_len_after_update_witness :
  ∃ h', InputSet___setitem__ 4 "z" (VStr "4") ex_heap = (Ok (), h') ∧
        InputSet___len__ h' 4 = Ok 3.
Proof.
  destruct (InputSet_len_after_update ex_heap 4 _ _ _ "z" (VStr "4")
              (InputSet_at_mapping _ _ _ _ _ _ _ ex_heap_b))
    as (_ & (h' & Hset & Hlen) & _).
  exists h'. split; [exact Hset|]. rewrite Hlen. reflexivity.
Defined.

(** Storing an item under a new file name and deleting it again gives
    back the store as it was, with the collection, its mapping and the
    order of its file names. *)
Theorem InputSet_setitem_delitem_roundtrip h self c li inputs key v :
  InputSet_mapping h self c li inputs →
  key ∉ PyDict.keys inputs →
  ∃ h1,
    InputSet___setitem__ self key v h = (Ok (), h1) ∧
    InputSet___getitem__ getattr h1 self key = Ok v ∧
    InputSet___iter__ h1 self = Ok (PyDict.keys inputs ++ [key]) ∧
    InputSet___delitem__ self key h1 = (Ok (), h).
Proof.
  intros Hat Hkey. pose proof Hat as (dict & Hs & Hc & Hi & Hli & Hwi).
  destruct (mapping_inputs _ _ _ _ _ Hat) as [Hg _].
  destruct (mapping_store _ _ _ _ _ (PyDict.set key v inputs) Hat) as [Hin Hg'];
    [by apply PyDictFacts.wf_set|].
  assert (li < length h) as Hlt by (by eapply lookup_lt_Some).
  unfold self_inputs in Hin. rewrite Hg' in Hin.
  exists (<[li := Obj KDict (PyDict.set key v inputs)]> h). split_and!.
  - unfold InputSet___setitem__.
    erewrite bind_Ok; [|by apply read_Ok].
    unfold store_subscript. by rewrite Hli.
  - unfold InputSet___getitem__, subscript. rewrite Hg'.
    unfold unpack in Hin. destruct (as_dict _ (VRef li)); simplify_eq.
    by rewrite PyDictFacts.get_set_eq.
  - unfold InputSet___iter__. rewrite Hg', Hin.
    by rewrite PyDictFacts.keys_set, decide_False.
  - unfold InputSet___delitem__.
    erewrite bind_Ok; [|by apply read_Ok].
    unfold del_subscript. rewrite list_lookup_insert_eq by done.
    rewrite PyDict_del_set_new by done.
    by rewrite list_insert_insert_eq, list_insert_id.
Qed.

Lemma InputSet_setitem_delitem_roundtrip_witness :
  ∃ h1, InputSet___setitem__ 4 "z" (VStr "4") ex_heap = (Ok (), h1) ∧
        InputSet___delitem__ 4 "z" h1 = (Ok (), ex_heap).
Proof.
  destruct (InputSet_setitem_delitem_roundtrip ex_heap 4 _ _ _ "z" (VStr "4")
              (InputSet_at_mapping _ _ _ _ _ _ _ ex_heap_b))
    as (h1 & Hset & _ & _ & Hdel).
  - intros Hin. apply list_elem_of_In in Hin. simpl in Hin.
    destruct Hin as [?|[?|[]]]; discriminate.
  - exists h1. split; [exact Hset|exact Hdel].
Defined.

(** ** Writing without an archive *)

(** [mkdir(parents=True, exist_ok=True)] succeeds when nothing on the way
    is a file, and removes or changes nothing that exists. *)
Lemma makedirs_total (done rest : path) (fs : FS) :
  (∀ q : path, q `prefix_of` (done ++ rest) → length done < length q →
     stat fs q = None ∨ stat fs q = Some Dir) →
  ∃ fs' : FS, makedirs done rest fs = (Ok (), fs') ∧ fs ⊆ fs'.
Proof.
  revert done fs. induction rest as [|c rest IH]; intros done fs Hq.
  - exists fs. done.
  - simpl. set (p := (done / c)%path).
    assert (length p = S (length done)) as Hlen.
    { unfold p, div. rewrite length_app. simpl. lia. }
    assert (p ++ rest = done ++ c :: rest) as Happ.
    { unfold p, div. by rewrite <- app_assoc. }
    destruct (Hq p) as [Hp|Hp].
    { rewrite <- Happ. by apply prefix_app_r. }
    { lia. }
    + rewrite Hp.
      destruct (IH p (<[p := Dir]> fs)) as (fs' & Hmk & Hsub).
      { intros q Hpre Hl. rewrite stat_insert_ne by (intros ->; lia).
        apply Hq; [by rewrite <- Happ|lia]. }
      exists fs'. split; [done|]. etrans; [|exact Hsub].
      apply insert_subseteq. unfold p in *. by rewrite stat_div in Hp.
    + rewrite Hp. apply IH. intros q Hpre Hl.
      apply Hq; [by rewrite <- Happ|lia].
Qed.

Lemma Path_mkdir_total (d : path) (fs : FS) :
  (∀ q : path, q `prefix_of` d → stat fs q = None ∨ stat fs q = Some Dir) →
  ∃ fs0 : FS,
    Path_mkdir d fs = (Ok (), fs0) ∧ fs ⊆ fs0 ∧ stat fs0 d = Some Dir ∧
    ∀ p : path, ¬ p `prefix_of` d → fs0 !! p = fs !! p.
Proof.
  intros Hq. destruct (makedirs_total [] d fs) as (fs0 & Hmk & Hsub).
  { intros q Hpre _. by apply Hq. }
  destruct (makedirs_Ok [] d fs fs0 Hmk eq_refl) as [Hd Hframe].
  exists fs0. done.
Qed.

Section Writing_more.
Variable zopen_codec : string → codec.
Variable get_str : heap → loc → string.
Variable builtin_str : heap → val → string.

Local Abbreviation py_str' := (py_str get_str builtin_str).
Local Abbreviation write_one' := (write_one zopen_codec get_str builtin_str).
Local Abbreviation written' := (written zopen_codec get_str builtin_str).
Local Abbreviation write_all' := (write_all zopen_codec get_str builtin_str).
Local Abbreviation write_input' := (InputSet_write_input zopen_codec get_str builtin_str).

(** [write_input] without [zip_inputs], into a directory that exists or
    that the first entry makes: the loop writes every item. *)
Lemma write_input_plain (h : heap) (self : loc) (c : cls) (li : loc)
    (inputs : PyDict.t val) (d : path) (make_dir overwrite : bool) (fs fs0 : FS) :
  InputSet_mapping h self c li inputs →
  (∀ k, k ∈ PyDict.keys inputs → single_component k) →
  (stat fs d = Some Dir ∧ fs0 = fs) ∨
  (stat fs d = None ∧ make_dir = true ∧ inputs ≠ [] ∧
   Path_mkdir d fs = (Ok (), fs0)) →
  (∀ k, k ∈ PyDict.keys inputs →
     match stat fs (d / k)%path with
     | None => True
     | Some Dir => False
     | Some _ => overwrite = true
     end) →
  write_input' h self d make_dir overwrite false fs
  = (Ok (), write_all' h d inputs fs0).
Proof.
  intros Hat Hsc Hdir Htargets.
  pose proof Hat as (_ & _ & _ & _ & _ & Hwi).
  set (W := λ kv : string * val, write_one' h d make_dir overwrite kv.1 kv.2).
  assert (stat fs0 d = Some Dir ∧
          (∀ k, stat fs0 (d / k)%path = stat fs (d / k)%path) ∧
          for_each inputs W fs = for_each inputs W fs0) as (Hd0 & Hsame & Hloop).
  { destruct Hdir as [[Hd ->]|(Hnone & -> & Hne & Hmk)]; [done|].
    destruct (makedirs_Ok [] d fs fs0 Hmk eq_refl) as [Hd0 Hframe].
    simpl in Hd0. split_and!; [done| |].
    - intros k. rewrite !stat_div. apply Hframe. simpl. apply div_not_prefix.
    - destruct inputs as [|[k v] inputs]; [done|]. cbn [for_each]. unfold bind, W.
      simpl. by rewrite (write_one_mkdir zopen_codec get_str builtin_str h d overwrite k v fs fs0). }
  unfold InputSet_write_input.
  erewrite bind_Ok; [|apply lift_Ok, (mapping_inputs _ _ _ _ _ Hat)].
  erewrite bind_Ok; [done|].
  fold W. rewrite Hloop. apply write_loop_Ok; [done|done|done|].
  intros k Hk. rewrite Hsame. by apply Htargets.
Qed.



(** Without [make_dir], [write_input] of a collection that has entries,
    under file names of one path component, into a directory that does
    not exist, under directories that do or are missing too, raises
    [FileNotFoundError] when it creates the first file, and leaves the
    file system as it was. *)
Theorem write_input_missing_directory (h : heap) (self : loc) (c : cls) (li : loc)
    (inputs : PyDict.t val) (d : path) (overwrite zip_inputs : bool) (fs : FS) :
  InputSet_mapping h self c li inputs →
  (∀ k, k ∈ PyDict.keys inputs → single_component k) →
  inputs ≠ [] →
  fs_wf fs →
  stat fs d = None →
  (∀ q : path, q `prefix_of` d → stat fs q = None ∨ stat fs q = Some Dir) →
  write_input' h self d false overwrite zip_inputs fs = (Raise FileNotFoundError, fs).
Proof.
  intros Hat Hsc Hne Hwf Hd Hanc.
  unfold InputSet_write_input.
  erewrite bind_Ok; [|apply lift_Ok, (mapping_inputs _ _ _ _ _ Hat)].
  destruct inputs as [|[k v] inputs]; [done|].
  erewrite bind_Raise; [done|].
  cbn [for_each]. erewrite bind_Raise; [done|].
  assert (stat fs (d / k)%path = None) as Hk.
  { destruct (stat fs (d / k)%path) eqn:Hst; [|done].
    rewrite (fs_wf_parent fs d k) in Hd; [done|done|by rewrite Hst]. }
  unfold write_one. simpl. rewrite (joinpath_single d k) by (apply Hsc; by left).
  erewrite bind_Ok.
  2:{ erewrite bind_Ok; [|apply read_Ok; reflexivity].
      unfold Path_exists. rewrite Hd.
      rewrite bool_decide_eq_false_2 by (by intros [? ?]). reflexivity. }
  erewrite bind_Ok; [|apply read_Ok; reflexivity].
  unfold Path_exists. rewrite Hk.
  rewrite bool_decide_eq_false_2 by (by intros [? ?]). simpl.
  erewrite bind_Raise; [done|].
  unfold Path_touch, check_parent. rewrite Hk, div_parent, Hd.
  by rewrite file_above_false.
Qed.
End Writing_more.

Lemma ex_no_file_above_d (fs : FS) (q : path) :
  q `prefix_of` ["d"] → fs !! ["d"] = None ∨ fs !! ["d"] = Some Dir →
  stat fs q = None ∨ stat fs q = Some Dir.
Proof.
  intros [r Hr] Hd. destruct q as [|x q]; [by right|].
  simpl in Hr. injection Hr as <- Hq.
  destruct q; [exact Hd|discriminate].
Qed.

Lemma ex_heap_b_targets (fs : FS) (P : string → Prop) :
  P "x" → P "y" →
  ∀ k, k ∈ PyDict.keys [("x", VStr "2"); ("y", VStr "3")] → P k.
Proof.
  intros Hx Hy k Hk. apply list_elem_of_In in Hk. simpl in Hk.
  destruct Hk as [<-|[<-|[]]]; assumption.
Qed.



Lemma ex_fs_empty_wf : fs_wf (∅ : FS).
Proof. intros p n Hp. rewrite lookup_empty in Hp. discriminate. Qed.

Lemma write_input_missing_directory_witness :
  InputSet_write_input ex_codec ex_get_str ex_builtin_str
    ex_heap 4 ["d"] false true false ∅ = (Raise FileNotFoundError, ∅).
Proof.
  apply (write_input_missing_directory ex_codec ex_get_str ex_builtin_str
           ex_heap 4 _ _ _ ["d"] true false ∅
           (InputSet_at_mapping _ _ _ _ _ _ _ ex_heap_b) ex_heap_b_single).
  - discriminate.
  - exact ex_fs_empty_wf.
  - reflexivity.
  - intros q Hq. apply ex_no_file_above_d; [exact Hq|]. left. reflexivity.
Defined.

(** ** Reading files back *)

Section Reading_facts.
Variable zopen_codec : string → codec.
Variable get_str : heap → loc → string.
Variable builtin_str : heap → val → string.
Variable zopen_text : string → node → result string.

Local Abbreviation py_str' := (py_str get_str builtin_str).
Local Abbreviation write_all' := (write_all zopen_codec get_str builtin_str).
Local Abbreviation write_input' := (InputSet_write_input zopen_codec get_str builtin_str).
Local Abbreviation from_file' := (InputFile_from_file zopen_text).

(** Reading a text file that holds what [zopen] wrote under its name, a
    text with no carriage return. *)
Lemma from_file_Text {A} (from_str : string → result A) (p : path) (text : string) (fs : FS) :
  (∀ fname s, no_CR s → zopen_text fname (Text (zopen_codec fname) s) = Ok s) →
  no_CR text →
  p ≠ [] →
  fs !! p = Some (Text (zopen_codec (name p)) text) →
  from_file' from_str p fs = (from_str text, fs).
Proof.
  intros Hdec Hcr Hnil Hp. unfold InputFile_from_file.
  erewrite bind_Ok; [done|].
  unfold zopen_read. destruct p as [|x p]; [done|]. simpl stat.
  rewrite Hp. by rewrite Hdec.
Qed.

(** The base [from_file], of a class that leaves [from_str] as [InputFile]
    has it: it never returns a value and never changes the file system.
    A file that can be read is read, and then [from_str] raises
    [NotImplementedError] with the name of the class; a path that does not
    exist, in a directory that does, raises [FileNotFoundError] before
    [from_str] is called, and a directory raises [IsADirectoryError]. *)
Theorem InputFile_from_file_base (c : cls) (p : path) (fs : FS) :
  (from_file' (@InputFile_from_str val c) p fs).2 = fs ∧
  (∀ a, (from_file' (@InputFile_from_str val c) p fs).1 ≠ Ok a) ∧
  (∀ n s, stat fs p = Some n → n ≠ Dir → zopen_text (name p) n = Ok s →
     (from_file' (@InputFile_from_str val c) p fs).1
     = Raise (NotImplementedError ("from_str has not been implemented in " +:+ cname c))) ∧
  (stat fs p = None → stat fs (parent p) = Some Dir →
     (from_file' (@InputFile_from_str val c) p fs).1 = Raise FileNotFoundError) ∧
  (stat fs p = Some Dir →
     (from_file' (@InputFile_from_str val c) p fs).1 = Raise IsADirectoryError).
Proof.
  unfold InputFile_from_file, bind, zopen_read, lift, InputFile_from_str, check_parent.
  split_and!.
  - destruct (stat fs p) as [[| |]|]; simpl; try done.
    + by destruct (zopen_text _ _).
    + by destruct (zopen_text _ _).
    + destruct (stat fs (parent p)) as [[| |]|]; try done.
      by destruct (file_above fs [] (parent p)).
  - intros a. destruct (stat fs p) as [[| |]|]; simpl; try done.
    + by destruct (zopen_text _ _).
    + by destruct (zopen_text _ _).
    + destruct (stat fs (parent p)) as [[| |]|]; try done.
      by destruct (file_above fs [] (parent p)).
  - intros n s -> Hn Hs. destruct n; [done| |]; by rewrite Hs.
  - by intros -> ->.
  - by intros ->.
Qed.

(** What [write_file] writes, [from_file] reads, when the text has no
    carriage return in it: after [x.write_file(path)],
    [cls.from_file(path)] is [cls.from_str(x.get_str())], given that
    [zopen] reads back, under a file name, a text without carriage return
    that it wrote under that name. *)
Theorem InputFile_write_file_from_file {A} (from_str : string → result A)
    (h : heap) (x : loc) (p : path) (fs : FS) :
  (∀ fname s, no_CR s → zopen_text fname (Text (zopen_codec fname) s) = Ok s) →
  no_CR (get_str h x) →
  stat fs (parent p) = Some Dir →
  stat fs p ≠ Some Dir →
  ∃ fs' : FS,
    InputFile_write_file zopen_codec get_str h x p fs = (Ok (), fs') ∧
    from_file' from_str p fs' = (from_str (get_str h x), fs').
Proof.
  intros Hdec Hcr Hpar Hp. eexists. split.
  - unfold InputFile_write_file. by apply zopen_write_Ok.
  - apply from_file_Text; [done|done| |by rewrite lookup_insert_eq].
    by intros ->.
Qed.

End Reading_facts.

Lemma ex_zopen_text_codec (fname s : string) :
  no_CR s → ex_zopen_text fname (Text (ex_codec fname) s) = Ok s.
Proof. reflexivity. Qed.

Lemma ex_no_CR (s : string) : s ∈ ["rendered"; "2"; "3"] → no_CR s.
Proof.
  intros Hs. apply list_elem_of_In in Hs. simpl in Hs.
  destruct Hs as [<-|[<-|[<-|[]]]]; intros Hin%list_elem_of_In; simpl in Hin;
    repeat (destruct Hin as [Hin|Hin]; [discriminate Hin|]); exact Hin.
Qed.

Lemma InputFile_write_file_from_file_witness :
  ∃ fs' : FS,
    InputFile_write_file ex_codec ex_get_str ex_heap_file 0 ["d"; "INCAR"] ex_fs = (Ok (), fs') ∧
    InputFile_from_file ex_zopen_text ex_from_str ["d"; "INCAR"] fs'
    = (Ok (VStr "rendered"), fs').
Proof.
  apply (InputFile_write_file_from_file ex_codec ex_get_str ex_zopen_text ex_from_str
           ex_heap_file 0 ["d"; "INCAR"] ex_fs ex_zopen_text_codec).
  - apply ex_no_CR. left.
  - reflexivity.
  - vm_compute. discriminate.
Defined.


(** ** The union operator, continued *)

(** Two dicts with the same keys in the same order and the same value
    under each key are equal. *)
Lemma PyDict_ext {V} (d1 d2 : PyDict.t V) :
  PyDict.wf d1 → PyDict.keys d1 = PyDict.keys d2 →
  (∀ k, PyDict.get k d1 = PyDict.get k d2) → d1 = d2.
Proof.
  revert d2. induction d1 as [|[k v] d1 IH]; intros [|[k' v'] d2] Hwf Hkeys Hget;
    try done.
  unfold PyDict.wf in Hwf. simpl in Hwf, Hkeys. apply NoDup_cons in Hwf as [Hk Hwf].
  injection Hkeys as <- Hkeys.
  pose proof (Hget k) as Hv. simpl in Hv. rewrite !decide_True in Hv by done.
  injection Hv as <-. f_equal. apply IH; [done|done|].
  intros k0. destruct (decide (k0 = k)) as [->|Hne].
  - assert (PyDict.get k d1 = None) as -> by (by apply PyDictFacts.get_None).
    symmetry. apply PyDictFacts.get_None. by rewrite <- Hkeys.
  - specialize (Hget k0). simpl in Hget. by rewrite !decide_False in Hget by done.
Qed.

(** The display of three dicts can be nested either way. *)
Lemma PyDict_merge_assoc {V} (a b c : PyDict.t V) :
  PyDict.wf a → PyDict.wf b → PyDict.wf c →
  PyDict.merge (PyDict.merge a b) c = PyDict.merge a (PyDict.merge b c).
Proof.
  intros Ha Hb Hc.
  pose proof (PyDictFacts.wf_merge a b) as Hab.
  pose proof (PyDictFacts.wf_merge b c) as Hbc.
  apply PyDict_ext; [apply PyDictFacts.wf_merge| |].
  - rewrite !PyDictFacts.keys_merge by done.
    rewrite filter_app, <- app_assoc. f_equal. f_equal.
    rewrite list_filter_filter. apply filter_ext_elem. intros k _.
    rewrite elem_of_app, list_elem_of_filter. tauto.
  - intros k. rewrite !PyDictFacts.get_merge by done.
    by destruct (PyDict.get k c).
Qed.



(** ** Collections made without a mapping *)

(** [c( **kwargs)], with [inputs] left at [None]: the collection gets a
    new empty dict. *)
Lemma InputSet_call_None c (kwargs : PyDict.t val) (h : heap) :
  derives c "InputSet" = true →
  "self" ∉ PyDict.keys kwargs → "inputs" ∉ PyDict.keys kwargs →
  PyDict.wf kwargs →
  ∃ h',
    InputSet_call c VNone kwargs h = (Ok (length h), h') ∧
    extends h h' ∧ length h' = length h + 3 ∧
    InputSet_mapping h' (length h) c (S (S (length h))) [].
Proof.
  intros Hc H1 H2 Hwf.
  pose proof (InputSet_call_spec c VNone kwargs h H1 H2) as Hcall.
  cbv zeta in Hcall. simpl in Hcall.
  eexists. split_and!; [exact Hcall|apply extends_app| |].
  - rewrite length_app. simpl. lia.
  - eexists. split_and!.
    + by rewrite lookup_app_r, Nat.sub_diag by lia.
    + done.
    + rewrite PyDictFacts.get_update by done.
      by apply PyDictFacts.get_None in H2 as ->.
    + rewrite lookup_app_r by lia.
      by replace (S (S (length h)) - length h) with 2 by lia.
    + apply NoDup_nil_2.
Qed.

(** Two collections made without [inputs] do not share their mapping:
    each call of [__init__] evaluates [inputs or {}] and makes a dict of
    its own, so that an item stored in one collection is not in the
    other. *)
Theorem InputSet_init_default_not_shared c (kw1 kw2 : PyDict.t val) (h : heap) :
  derives c "InputSet" = true →
  "self" ∉ PyDict.keys kw1 → "inputs" ∉ PyDict.keys kw1 → PyDict.wf kw1 →
  "self" ∉ PyDict.keys kw2 → "inputs" ∉ PyDict.keys kw2 → PyDict.wf kw2 →
  ∃ s1 h1 s2 h2 l1 l2,
    InputSet_call c VNone kw1 h = (Ok s1, h1) ∧
    InputSet_call c VNone kw2 h1 = (Ok s2, h2) ∧
    InputSet_mapping h2 s1 c l1 [] ∧
    InputSet_mapping h2 s2 c l2 [] ∧
    s1 ≠ s2 ∧ l1 ≠ l2 ∧
    InputSet___len__ h2 s1 = Ok 0 ∧
    ∀ key v, ∃ h3,
      InputSet___setitem__ s1 key v h2 = (Ok (), h3) ∧
      InputSet___getitem__ getattr h3 s1 key = Ok v ∧
      InputSet___getitem__ getattr h3 s2 key = Raise (KeyError key) ∧
      InputSet___len__ h3 s2 = Ok 0.
Proof.
  intros Hc H1 H2 Hw1 H3 H4 Hw2.
  destruct (InputSet_call_None c kw1 h) as (h1 & Hcall1 & Hext1 & Hlen1 & Hat1); try done.
  destruct (InputSet_call_None c kw2 h1) as (h2 & Hcall2 & Hext2 & Hlen2 & Hat2); try done.
  pose proof (mapping_extends _ _ _ _ _ _ Hext2 Hat1) as Hat1'.
  set (l1 := S (S (length h))) in *. set (s1 := length h) in *.
  set (l2 := S (S (length h1))) in *. set (s2 := length h1) in *.
  exists s1, h1, s2, h2, l1, l2.
  split_and!; [done|done|done|done|unfold s1, s2; lia|unfold l1, l2; lia| |].
  - unfold InputSet___len__. rewrite (proj1 (mapping_inputs _ _ _ _ _ Hat1')).
    destruct Hat1' as (? & _ & _ & _ & Hl1 & _). unfold unpack, as_dict. by rewrite Hl1.
  - intros key v.
    pose proof Hat1' as (d1 & Hs1 & _ & Hi1 & Hl1 & _).
    pose proof Hat2 as (d2 & Hs2 & _ & Hi2 & Hl2 & _).
    destruct (mapping_store _ _ _ _ _ (PyDict.set key v []) Hat1') as [Hin Hg'];
      [apply PyDictFacts.wf_set, PyDictFacts.wf_nil|].
    unfold self_inputs in Hin. rewrite Hg' in Hin.
    set (h3 := <[l1 := Obj KDict (PyDict.set key v [])]> h2) in *.
    assert (getattr h3 s2 "inputs" = Ok (VRef l2)) as Hg2.
    { eapply getattr_dict; [|exact Hi2]. unfold h3.
      rewrite list_lookup_insert_ne by (unfold l1, s2; lia). exact Hs2. }
    assert (as_dict h3 (VRef l2) = Some []) as Hd2.
    { unfold as_dict, h3. rewrite list_lookup_insert_ne by (unfold l1, l2; lia).
      by rewrite Hl2. }
    exists h3. split_and!.
    + unfold InputSet___setitem__.
      erewrite bind_Ok; [|apply read_Ok, (mapping_inputs _ _ _ _ _ Hat1')].
      unfold store_subscript. by rewrite Hl1.
    + unfold InputSet___getitem__, subscript. rewrite Hg'.
      unfold unpack in Hin. destruct (as_dict h3 (VRef l1)); simplify_eq.
      simpl. by rewrite decide_True.
    + unfold InputSet___getitem__, subscript. by rewrite Hg2, Hd2.
    + unfold InputSet___len__, unpack. by rewrite Hg2, Hd2.
Qed.

Lemma InputSet_init_default_not_shared_witness :
  ∃ s1 h1 s2 h2 h3,
    InputSet_call InputSet_cls VNone [] [] = (Ok s1, h1) ∧
    InputSet_call InputSet_cls VNone [] h1 = (Ok s2, h2) ∧
    InputSet___setitem__ s1 "x" (VStr "1") h2 = (Ok (), h3) ∧
    InputSet___len__ h3 s2 = Ok 0.
Proof.
  destruct (InputSet_init_default_not_shared InputSet_cls [] [] [] eq_refl)
    as (s1 & h1 & s2 & h2 & l1 & l2 & Hc1 & Hc2 & _ & _ & _ & _ & _ & Hset).
  - apply not_elem_of_nil.
  - apply not_elem_of_nil.
  - apply NoDup_nil_2.
  - apply not_elem_of_nil.
  - apply not_elem_of_nil.
  - apply NoDup_nil_2.
  - destruct (Hset "x" (VStr "1")) as (h3 & Hs & _ & _ & Hlen).
    exists s1, h1, s2, h2, h3. split_and!; [exact Hc1|exact Hc2|exact Hs|exact Hlen].
Defined.
